(** * sync_diff_inspector/report: the report aggregator

    A shallow embedding of [sync_diff_inspector/report/report.go] and the
    properties of the report that the design document states.

    Conventions of the embedding.
    - A Go [string] and a Go [[]byte] are Rocq [string]s (sequences of bytes).
    - A Go [error] is [option string]: [None] is the nil interface value and
      [Some msg] an error whose [Error()] method returns [msg].
    - Go [int] and [int64] are [Z] with 64-bit two's-complement wrap-around,
      [int32] is [Z] with 32-bit wrap-around.
    - A Go map is a [gmap]; a nil map that is only read behaves as the empty
      map.  [TableResult.ChunkMap] is written by the code and is nil in the
      values that [SetTableMeetError] allocates, so it is an [option].
    - [*TableResult] and [*ChunkResult] are embedded by value.  A missing key
      of [TableResults] yields the nil pointer in Go; writing through it
      panics, which the embedding makes explicit in [outcome].
    - Go's map iteration order is unspecified: every loop over a map runs over
      [range m], an arbitrary enumeration supplied by the class [MapOrder]. *)

From Stdlib Require Import ZArith String Ascii List.
From stdpp Require Import base option list gmap strings fin_maps pretty sorting.

Open Scope string_scope.
Open Scope list_scope.
Open Scope Z_scope.

(** ** Machine integers *)

Definition wrap (bits : Z) (z : Z) : Z :=
  (z + 2 ^ (bits - 1)) mod 2 ^ bits - 2 ^ (bits - 1).

Definition wrap64 : Z → Z := wrap 64.
Definition wrap32 : Z → Z := wrap 32.

(** ** Go values *)

Definition error : Type := option string.

(** What a call leaves behind: the value it returns, or the state in which it
    panicked (the deferred [Unlock] runs, the receiver stays as it was at the
    faulting statement). *)
Inductive outcome (A : Type) : Type :=
  | Returns (a : A)
  | Panics (a : A).
Arguments Returns {A} a.
Arguments Panics {A} a.

Definition after {A} (o : outcome A) : A :=
  match o with Returns a | Panics a => a end.

Definition returned {A} (o : outcome A) : bool :=
  match o with Returns _ => true | Panics _ => false end.

Definition and_then {A} (o : outcome A) (k : A → outcome A) : outcome A :=
  match o with Returns a => k a | Panics a => Panics a end.

(** The error monad of functions returning [(T, error)]. *)
Definition try {A B} (x : string + A) (k : A → string + B) : string + B :=
  match x with inl e => inl e | inr a => k a end.

Notation "x ← y ;;; z" := (try y (λ x, z))
  (at level 20, y at level 100, z at level 200, right associativity,
   format "x  ←  y ;;; '/' z").

Fixpoint foldlM {A B} (f : B → A → string + B) (l : list A) (b : B) : string + B :=
  match l with
  | [] => inr b
  | a :: l => b' ← f b a;;; foldlM f l b'
  end.

(** ** External collaborators

    [chunk.ChunkID], [utils.UniqueID], [dbutil.TableName],
    [config.LogFileName] and the formatting of durations and floats are
    declared outside this package. *)
Class Collaborators := {
  ChunkID : Type;
  ToString : ChunkID → string;
  FromString : string → string + ChunkID;
  Compare : ChunkID → ChunkID → Z;
  UniqueID : string → string → string;
  TableName : string → string → string;
  LogFileName : string;
  fmtDuration : Z → string;
  fmtSpeed : Z → Z → string;
}.

(** Iteration order of [for k, v := range m]. *)
Class MapOrder := {
  range : ∀ {A}, gmap string A → list (string * A);
  range_perm : ∀ A (m : gmap string A), range m ≡ₚ map_to_list m;
}.

(** ** Data model *)

Definition Pass : string := "pass".
Definition Fail : string := "fail".
Definition Error : string := "error".

Record ChunkResult := mkChunkResult {
  RowsAdd : Z;
  RowsDelete : Z;
}.

Record TableResult := mkTableResult {
  Schema : string;
  Table : string;
  StructEqual : bool;
  DataSkip : bool;
  DataEqual : bool;
  MeetError : error;
  ChunkMap : option (gmap string ChunkResult);
}.

Record TaskConfig := mkTaskConfig {
  OutputDir : string;
  FixDir : string;
}.

Record Report := mkReport {
  Result : string;
  PassNum : Z;
  FailedNum : Z;
  TableResults : gmap string (gmap string TableResult);
  StartTime : Z;
  Duration : Z;
  TotalSize : Z;
  SourceConfig : list string;
  TargetConfig : string;
  task : TaskConfig;
}.

Record TableDiff := mkTableDiff {
  td_Schema : string;
  td_Table : string;
}.

Global Instance TableDiff_eq_dec : EqDecision TableDiff.
Proof. solve_decision. Defined.

Global Instance ChunkResult_eq_dec : EqDecision ChunkResult.
Proof. solve_decision. Defined.
Global Instance TableResult_eq_dec : EqDecision TableResult.
Proof. solve_decision. Defined.

(** Field assignments. *)
Definition set_RowsAdd (v : Z) (c : ChunkResult) : ChunkResult :=
  {| RowsAdd := v; RowsDelete := RowsDelete c |}.
Definition set_RowsDelete (v : Z) (c : ChunkResult) : ChunkResult :=
  {| RowsAdd := RowsAdd c; RowsDelete := v |}.

Definition set_StructEqual (v : bool) (t : TableResult) : TableResult :=
  {| Schema := Schema t; Table := Table t; StructEqual := v;
     DataSkip := DataSkip t; DataEqual := DataEqual t;
     MeetError := MeetError t; ChunkMap := ChunkMap t |}.
Definition set_DataSkip (v : bool) (t : TableResult) : TableResult :=
  {| Schema := Schema t; Table := Table t; StructEqual := StructEqual t;
     DataSkip := v; DataEqual := DataEqual t;
     MeetError := MeetError t; ChunkMap := ChunkMap t |}.
Definition set_DataEqual (v : bool) (t : TableResult) : TableResult :=
  {| Schema := Schema t; Table := Table t; StructEqual := StructEqual t;
     DataSkip := DataSkip t; DataEqual := v;
     MeetError := MeetError t; ChunkMap := ChunkMap t |}.
Definition set_MeetError (v : error) (t : TableResult) : TableResult :=
  {| Schema := Schema t; Table := Table t; StructEqual := StructEqual t;
     DataSkip := DataSkip t; DataEqual := DataEqual t;
     MeetError := v; ChunkMap := ChunkMap t |}.
Definition set_ChunkMap (v : option (gmap string ChunkResult)) (t : TableResult)
  : TableResult :=
  {| Schema := Schema t; Table := Table t; StructEqual := StructEqual t;
     DataSkip := DataSkip t; DataEqual := DataEqual t;
     MeetError := MeetError t; ChunkMap := v |}.

Definition set_Result (v : string) (r : Report) : Report :=
  {| Result := v; PassNum := PassNum r; FailedNum := FailedNum r;
     TableResults := TableResults r; StartTime := StartTime r;
     Duration := Duration r; TotalSize := TotalSize r;
     SourceConfig := SourceConfig r; TargetConfig := TargetConfig r;
     task := task r |}.
Definition set_TableResults (v : gmap string (gmap string TableResult))
  (r : Report) : Report :=
  {| Result := Result r; PassNum := PassNum r; FailedNum := FailedNum r;
     TableResults := v; StartTime := StartTime r;
     Duration := Duration r; TotalSize := TotalSize r;
     SourceConfig := SourceConfig r; TargetConfig := TargetConfig r;
     task := task r |}.
Definition set_TotalSize (v : Z) (r : Report) : Report :=
  {| Result := Result r; PassNum := PassNum r; FailedNum := FailedNum r;
     TableResults := TableResults r; StartTime := StartTime r;
     Duration := Duration r; TotalSize := v;
     SourceConfig := SourceConfig r; TargetConfig := TargetConfig r;
     task := task r |}.

(** [m[schema][table]]: the nil pointer ([None]) when either key is missing. *)
Definition lookup2 {A} (m : gmap string (gmap string A)) (schema table : string)
  : option A :=
  m !! schema ≫= (.!! table).

(** [m[schema][table] = v] for a [schema] whose inner map exists; also the
    effect on [m] of writing fields through the pointer [m[schema][table]]. *)
Definition store2 {A} (m : gmap string (gmap string A)) (schema table : string)
  (v : A) : gmap string (gmap string A) :=
  <[schema := <[table := v]> (default ∅ (m !! schema))]> m.

Definition lookupTable (r : Report) (schema table : string) : option TableResult :=
  lookup2 (TableResults r) schema table.

Definition storeTable (r : Report) (schema table : string) (v : TableResult)
  : Report :=
  set_TableResults (store2 (TableResults r) schema table v) r.

(** ** Operations *)

(** [NewReport] *)
Definition NewReport (t : TaskConfig) : Report :=
  {| Result := Pass; PassNum := 0; FailedNum := 0; TableResults := ∅;
     StartTime := 0; Duration := 0; TotalSize := 0;
     SourceConfig := []; TargetConfig := ""; task := t |}.

(** [Init] *)
Definition Init (now : Z) (tableDiffs : list TableDiff)
  (sourceConfig : list string) (targetConfig : string) (r : Report) : Report :=
  let r :=
    {| Result := Result r; PassNum := PassNum r; FailedNum := FailedNum r;
       TableResults := TableResults r; StartTime := now;
       Duration := Duration r; TotalSize := TotalSize r;
       SourceConfig := sourceConfig; TargetConfig := targetConfig;
       task := task r |} in
  foldl (λ r tableDiff,
    let schema := td_Schema tableDiff in
    let table := td_Table tableDiff in
    let r :=
      match TableResults r !! schema with
      | None => set_TableResults (<[schema := ∅]> (TableResults r)) r
      | Some _ => r
      end in
    storeTable r schema table
      {| Schema := schema; Table := table; StructEqual := true;
         DataSkip := false; DataEqual := true; MeetError := None;
         ChunkMap := Some ∅ |}) r tableDiffs.

(** [SetTableStructCheckResult] *)
Definition SetTableStructCheckResult (schema table : string) (equal skip : bool)
  (r : Report) : outcome Report :=
  match lookupTable r schema table with
  | None => Panics r
  | Some tableResult =>
    let r := storeTable r schema table
               (set_DataSkip skip (set_StructEqual equal tableResult)) in
    Returns (if negb equal && bool_decide (Result r ≠ Error)
             then set_Result Fail r else r)
  end.

(** [SetTableDataCheckResult] *)
Definition SetTableDataCheckResult `{Collaborators} (schema table : string)
  (equal : bool) (rowsAdd rowsDelete : Z) (id : ChunkID) (r : Report)
  : outcome Report :=
  and_then
    (if negb equal then
       match lookupTable r schema table with
       | None => Panics r
       | Some result =>
         let result := set_DataEqual equal result in
         match ChunkMap result with
         | None => Panics (storeTable r schema table result)
         | Some chunkMap =>
           let chunkMap :=
             match chunkMap !! ToString id with
             | None => <[ToString id := mkChunkResult 0 0]> chunkMap
             | Some _ => chunkMap
             end in
           let chunkMap :=
             alter (λ c, set_RowsAdd (wrap64 (RowsAdd c + rowsAdd)) c)
                   (ToString id) chunkMap in
           let chunkMap :=
             alter (λ c, set_RowsDelete (wrap64 (RowsDelete c + rowsDelete)) c)
                   (ToString id) chunkMap in
           let r := storeTable r schema table
                      (set_ChunkMap (Some chunkMap) result) in
           Returns (if bool_decide (Result r ≠ Error)
                    then set_Result Fail r else r)
         end
       end
     else Returns r)
    (λ r, Returns (if negb equal && bool_decide (Result r ≠ Error)
                   then set_Result Fail r else r)).

(** [SetTableMeetError] *)
Definition SetTableMeetError (schema table : string) (err : error) (r : Report)
  : outcome Report :=
  match TableResults r !! schema with
  | None =>
    Returns (set_TableResults
      (<[schema := {[ table :=
           {| Schema := ""; Table := ""; StructEqual := false;
              DataSkip := false; DataEqual := false; MeetError := err;
              ChunkMap := None |} ]}]> (TableResults r)) r)
  | Some tableMap =>
    match tableMap !! table with
    | None => Panics r
    | Some tableResult =>
      Returns (set_Result Error
        (storeTable r schema table (set_MeetError err tableResult)))
    end
  end.

(** [LoadReport] *)
Definition LoadReport `{MapOrder} (now : Z) (reportInfo : Report) (r : Report)
  : Report :=
  let r :=
    {| Result := Result r; PassNum := PassNum r; FailedNum := FailedNum r;
       TableResults := TableResults r; StartTime := now;
       Duration := Duration reportInfo; TotalSize := TotalSize reportInfo;
       SourceConfig := SourceConfig r; TargetConfig := TargetConfig r;
       task := task r |} in
  foldl (λ r '(schema, tableMap),
    let r :=
      match TableResults r !! schema with
      | None => set_TableResults (<[schema := ∅]> (TableResults r)) r
      | Some _ => r
      end in
    foldl (λ r '(table, result), storeTable r schema table result)
          r (range tableMap))
    r (range (TableResults reportInfo)).

(** Go compares strings bytewise; [sort.Slice] with [<] yields the ascending
    arrangement, which is unique for strings. *)
Definition string_le (a b : string) : Prop := String.leb a b = true.
Global Instance string_le_dec : RelDecision string_le.
Proof. intros a b. unfold string_le. apply _. Defined.

(** [getSortedTables] *)
Definition getSortedTables `{MapOrder, Collaborators} (r : Report) : list string :=
  let equalTables :=
    foldl (λ equalTables '(schema, tableMap),
      foldl (λ equalTables '(table, result),
        if StructEqual result && DataEqual result
        then equalTables ++ [TableName schema table]
        else equalTables) equalTables (range tableMap))
      [] (range (TableResults r)) in
  merge_sort string_le equalTables.

(** [fmt.Sprintf("+%d/-%d", rowAdd, rowDelete)] *)
Definition fmtDiff (rowAdd rowDelete : Z) : string :=
  "+" +:+ pretty rowAdd +:+ "/-" +:+ pretty rowDelete.

(** The inner loop of [getDiffRows]: [(rowAdd, rowDelete)] over the chunks. *)
Definition sumChunks `{MapOrder} (chunkMap : option (gmap string ChunkResult))
  : Z * Z :=
  foldl (λ '(rowAdd, rowDelete) '(_, chunkResult),
           (wrap64 (rowAdd + RowsAdd chunkResult),
            wrap64 (rowDelete + RowsDelete chunkResult)))
        (0, 0) (range (default ∅ chunkMap)).

(** [getDiffRows] *)
Definition getDiffRows `{MapOrder, Collaborators} (r : Report)
  : list (list string) :=
  foldl (λ diffRows '(schema, tableMap),
    foldl (λ diffRows '(table, result),
      if StructEqual result && DataEqual result then diffRows
      else
        let diffRow := [] ++ [TableName schema table] in
        let diffRow :=
          if negb (StructEqual result) then diffRow ++ ["false"]
          else diffRow ++ ["true"] in
        let '(rowAdd, rowDelete) := sumChunks (ChunkMap result) in
        let diffRow := diffRow ++ [fmtDiff rowAdd rowDelete] in
        diffRows ++ [diffRow]) diffRows (range tableMap))
    [] (range (TableResults r)).

(** [CalculateTotalSize].  [db schema table] is what [utils.GetTableSize]
    answers; the second component of the state collects the tables named in
    the warnings logged.  The loops range over the maps of the report, whose
    keys the body never changes. *)
Definition CalculateTotalSize `{MapOrder, Collaborators}
  (db : string → string → Z * error) (r : Report)
  : outcome (Report * list string) :=
  foldl (λ acc '(schema, tableMap),
    foldl (λ acc '(table, _),
      and_then acc (λ '(r, warned),
        let '(size, err) := db schema table in
        match (match err with
               | Some _ => SetTableMeetError schema table err r
               | None => Returns r
               end) with
        | Panics r => Panics (r, warned)
        | Returns r =>
          if size =? 0
          then Returns (r, warned ++ [TableName schema table])
          else Returns (set_TotalSize (wrap64 (TotalSize r + size)) r, warned)
        end)) acc (range tableMap))
    (Returns (r, [])) (range (TableResults r)).

(** What is written to [summary.txt]: text, and the table handed to the
    [tablewriter] package (its header and the rows appended before
    [Render]). *)
Inductive fragment : Type :=
  | Text (s : string)
  | TableView (header : list string) (rows : list (list string)).

Global Instance fragment_eq_dec : EqDecision fragment.
Proof. solve_decision. Defined.

Definition newline : string := String (ascii_of_nat 10) "".
Definition tab : string := String (ascii_of_nat 9) "".

(** [CommitSummary].  [createErr] is the error of [os.Create]; the result is
    the report with its counters set, the error returned and the content of
    the file. *)
Definition CommitSummary `{MapOrder, Collaborators} (now : Z) (createErr : error)
  (r : Report) : Report * error * list fragment :=
  let '(passNum, failedNum) :=
    foldl (λ acc '(_, tableMap),
      foldl (λ '(passNum, failedNum) '(_, result),
        if StructEqual result && DataEqual result
        then (wrap32 (passNum + 1), failedNum)
        else (passNum, wrap32 (failedNum + 1))) acc (range tableMap))
      (0, 0) (range (TableResults r)) in
  let r :=
    {| Result := Result r; PassNum := passNum; FailedNum := failedNum;
       TableResults := TableResults r; StartTime := StartTime r;
       Duration := Duration r; TotalSize := TotalSize r;
       SourceConfig := SourceConfig r; TargetConfig := TargetConfig r;
       task := task r |} in
  match createErr with
  | Some e => (r, Some e, [])
  | None =>
    let duration := wrap64 (Duration r + (now - StartTime r)) in
    (r, None,
     [Text ("Summary" +:+ newline +:+ newline +:+ newline +:+ newline);
      Text ("Source Database" +:+ newline +:+ newline +:+ newline +:+ newline)]
     ++ (SourceConfig r ≫= λ c, [Text c; Text newline])
     ++ [Text ("Target Databases" +:+ newline +:+ newline +:+ newline +:+ newline);
         Text (TargetConfig r);
         Text newline;
         Text ("Comparison Result" +:+ newline +:+ newline +:+ newline +:+ newline);
         Text ("The table structure and data in following tables are equivalent"
               +:+ newline +:+ newline)]
     ++ ((λ table, Text (table +:+ newline)) <$> getSortedTables r)
     ++ (if bool_decide (Result r = Fail)
         then [Text (newline +:+ "The following tables contains inconsistent data"
                     +:+ newline +:+ newline);
               TableView ["Table"; "Structure equality"; "Data diff rows"]
                         (getDiffRows r)]
         else [])
     ++ [Text ("Time Cost: " +:+ fmtDuration duration +:+ newline);
         Text ("Average Speed: " +:+ fmtSpeed (TotalSize r) duration
               +:+ "MB/s" +:+ newline)])
  end.

(** [Print]: what is written to [w].  The summary is built in a local buffer
    and written at the end, so nothing is written when the body panics. *)
Definition Print `{MapOrder, Collaborators} (r : Report) : outcome string :=
  let logHint :=
    "You can view the comparision details through '" +:+ OutputDir (task r)
    +:+ "/" +:+ LogFileName +:+ "'" +:+ newline in
  if bool_decide (Result r = Pass) then
    Returns ("A total of " +:+ pretty (wrap32 (FailedNum r + PassNum r))
             +:+ " table have been compared and all are equal." +:+ newline
             +:+ logHint)
  else if bool_decide (Result r = Fail) then
    let summary :=
      foldl (λ summary '(schema, tableMap),
        foldl (λ summary '(table, result),
          let summary :=
            if negb (StructEqual result) then
              if DataSkip result
              then summary +:+ "The structure of " +:+ TableName schema table
                   +:+ " is not equal, and data-check is skipped" +:+ newline
              else summary +:+ "The structure of " +:+ TableName schema table
                   +:+ " is not equal" +:+ newline
            else summary in
          if negb (DataEqual result)
          then summary +:+ "The data of " +:+ TableName schema table
               +:+ " is not equal" +:+ newline
          else summary) summary (range tableMap))
        "" (range (TableResults r)) in
    Returns (summary +:+ newline +:+ "The rest of tables are all equal." +:+ newline
             +:+ "The patch file has been generated in " +:+ newline +:+ tab
             +:+ "'" +:+ FixDir (task r) +:+ "/'" +:+ newline
             +:+ logHint)
  else
    let summary :=
      foldl (λ acc '(schema, tableMap),
        foldl (λ acc '(table, result),
          and_then acc (λ summary,
            match MeetError result with
            | None => Panics ""
            | Some msg =>
              Returns (summary +:+ msg +:+ " error occured in "
                       +:+ TableName schema table +:+ newline)
            end)) acc (range tableMap))
        (Returns ("Error in comparison process:" +:+ newline))
        (range (TableResults r)) in
    and_then summary (λ summary, Returns (summary +:+ logHint)).

(** [GetSnapshot].  [now] is the clock read by [time.Since]. *)
Definition GetSnapshot `{MapOrder, Collaborators} (now : Z) (chunkID : ChunkID)
  (schema table : string) (r : Report) : string + Report :=
  let targetID := UniqueID schema table in
  reserveMap ←
    foldlM (λ reserveMap '(schema, tableMap),
      let reserveMap : gmap string (gmap string TableResult) :=
        <[schema := ∅]> reserveMap in
      foldlM (λ reserveMap '(table, result),
        let reportID := UniqueID schema table in
        if String.leb targetID reportID then
          let chunkRes : gmap string ChunkResult := ∅ in
          let reserveMap := store2 reserveMap schema table
            {| Schema := Schema result; Table := Table result;
               StructEqual := StructEqual result; DataSkip := false;
               DataEqual := DataEqual result; MeetError := MeetError result;
               ChunkMap := None |} in
          chunkRes ←
            foldlM (λ chunkRes '(id, chunkResult),
              sid ← FromString id;;;
              inr (if Compare sid chunkID <=? 0
                   then <[id := chunkResult]> chunkRes else chunkRes))
              (range (default ∅ (ChunkMap result))) chunkRes;;;
          inr (match lookup2 reserveMap schema table with
               | Some snap =>
                 store2 reserveMap schema table (set_ChunkMap (Some chunkRes) snap)
               | None => reserveMap
               end)
        else inr reserveMap) (range tableMap) reserveMap)
      (range (TableResults r)) ∅;;;
  inr {| PassNum := 0; FailedNum := 0; Result := Result r;
         TableResults := reserveMap; StartTime := StartTime r;
         Duration := now - StartTime r; TotalSize := TotalSize r;
         SourceConfig := []; TargetConfig := ""; task := task r |}.

(** ** A concrete set of collaborators

    Used to run the model on examples. *)
Module Sample.

(** Modelled from the spec: [chunk.ChunkID] is declared outside this
    package.  The design document describes it as the triple
    [(tableIndexHint, chunkSequenceInTable, totalChunksInTable)], compared
    lexicographically, with a canonical string form; the string form chosen
    here is the three numbers in decimal separated by colons. *)
Record SampleChunkID := mkChunkID {
  TableIndex : Z;
  ChunkIndex : Z;
  ChunkCnt : Z;
}.

Definition sampleToString (c : SampleChunkID) : string :=
  pretty (TableIndex c) +:+ ":" +:+ pretty (ChunkIndex c) +:+ ":"
  +:+ pretty (ChunkCnt c).

Definition digit (c : ascii) : option Z :=
  let n := Z.of_N (N_of_ascii c) in
  if (48 <=? n) && (n <=? 57) then Some (n - 48) else None.

Fixpoint parseDigits (s : string) (acc : Z) : option Z :=
  match s with
  | EmptyString => Some acc
  | String c s => d ← digit c; parseDigits s (acc * 10 + d)
  end.

Definition parseNumber (s : string) : option Z :=
  match s with
  | EmptyString => None
  | _ => parseDigits s 0
  end.

Fixpoint splitColon (s : string) (cur : string) : list string :=
  match s with
  | EmptyString => [cur]
  | String c s =>
    if Ascii.eqb c ":" then cur :: splitColon s ""
    else splitColon s (cur +:+ String c "")
  end.

Definition sampleFromString (s : string) : string + SampleChunkID :=
  match splitColon s "" with
  | [a; b; c] =>
    match parseNumber a, parseNumber b, parseNumber c with
    | Some a, Some b, Some c => inr (mkChunkID a b c)
    | _, _, _ => inl ("invalid chunk id " +:+ s)
    end
  | _ => inl ("invalid chunk id " +:+ s)
  end.

Definition cmpZ (a b : Z) : Z :=
  if a <? b then -1 else if b <? a then 1 else 0.

Definition sampleCompare (a b : SampleChunkID) : Z :=
  if negb (TableIndex a =? TableIndex b)
  then cmpZ (TableIndex a) (TableIndex b)
  else cmpZ (ChunkIndex a) (ChunkIndex b).

Definition quoted (schema table : string) : string :=
  "`" +:+ schema +:+ "`.`" +:+ table +:+ "`".

Definition collaborators : Collaborators :=
  {| ChunkID := SampleChunkID;
     ToString := sampleToString;
     FromString := sampleFromString;
     Compare := sampleCompare;
     UniqueID := λ schema table, schema +:+ ":" +:+ table;
     TableName := quoted;
     LogFileName := "sync_diff.log";
     fmtDuration := λ d, pretty d +:+ "ns";
     fmtSpeed := λ size d, pretty size +:+ "/" +:+ pretty d |}.

(** One admissible iteration order: the enumeration of [map_to_list]. *)
Definition order : MapOrder :=
  {| range := λ A m, map_to_list m;
     range_perm := λ A m, reflexivity (map_to_list m) |}.

(** Another one: the reverse enumeration. *)
Definition reversed : MapOrder :=
  {| range := λ A m, reverse (map_to_list m);
     range_perm := λ A m, reverse_Permutation (map_to_list m) |}.

Definition sampleTask : TaskConfig :=
  {| OutputDir := "/tmp/output"; FixDir := "/tmp/output/fix" |}.

End Sample.

(** ** Sequences of calls *)

(** A call of one of the two check-result setters. *)
Inductive call `{Collaborators} : Type :=
  | StructCheck (schema table : string) (equal skip : bool)
  | DataCheck (schema table : string) (equal : bool) (rowsAdd rowsDelete : Z)
              (id : ChunkID).

Definition apply_call `{Collaborators} (c : call) (r : Report) : outcome Report :=
  match c with
  | StructCheck schema table equal skip =>
    SetTableStructCheckResult schema table equal skip r
  | DataCheck schema table equal rowsAdd rowsDelete id =>
    SetTableDataCheckResult schema table equal rowsAdd rowsDelete id r
  end.

(** The calls are made one after the other; a panic ends the run. *)
Definition run_calls `{Collaborators} (cs : list call) (r : Report)
  : outcome Report :=
  foldl (λ acc c, and_then acc (apply_call c)) (Returns r) cs.

(** The outcome of checking one chunk, as the checker hands it to the report. *)
Record ChunkOutcome `{Collaborators} := mkChunkOutcome {
  co_schema : string;
  co_table : string;
  co_equal : bool;
  co_rowsAdd : Z;
  co_rowsDelete : Z;
  co_id : ChunkID;
}.
Arguments mkChunkOutcome {_} _ _ _ _ _ _.

Definition report_outcome `{Collaborators} (o : ChunkOutcome) (r : Report)
  : outcome Report :=
  SetTableDataCheckResult (co_schema o) (co_table o) (co_equal o)
    (co_rowsAdd o) (co_rowsDelete o) (co_id o) r.

Definition report_all `{Collaborators} (os : list ChunkOutcome) (r : Report)
  : outcome Report :=
  foldl (λ acc o, and_then acc (report_outcome o)) (Returns r) os.

(** The table has a [TableResult] with an allocated [ChunkMap], as [Init]
    creates it. *)
Definition tracked (r : Report) (schema table : string) : Prop :=
  is_Some (lookupTable r schema table ≫= ChunkMap).

Global Instance tracked_dec r schema table : Decision (tracked r schema table).
Proof. unfold tracked. apply _. Defined.

(** ** Closed forms used in the proofs *)

(** [if r.Result != Error { r.Result = Fail }] *)
Definition escalate (r : Report) : Report :=
  if bool_decide (Result r ≠ Error) then set_Result Fail r else r.

(** The entry of chunk [key] after [rowsAdd] and [rowsDelete] were added to
    it, starting from zero when it was absent. *)
Definition bumpChunks (key : string) (rowsAdd rowsDelete : Z)
  (chunkMap : gmap string ChunkResult) : gmap string ChunkResult :=
  let c := default (mkChunkResult 0 0) (chunkMap !! key) in
  <[key := mkChunkResult (wrap64 (RowsAdd c + rowsAdd))
                         (wrap64 (RowsDelete c + rowsDelete))]> chunkMap.

Definition bumpTable (key : string) (rowsAdd rowsDelete : Z) (t : TableResult)
  : TableResult :=
  set_ChunkMap (bumpChunks key rowsAdd rowsDelete <$> ChunkMap t)
               (set_DataEqual false t).

(** The [TableResult] that [Init] allocates. *)
Definition freshTable (schema table : string) : TableResult :=
  {| Schema := schema; Table := table; StructEqual := true;
     DataSkip := false; DataEqual := true; MeetError := None;
     ChunkMap := Some ∅ |}.

(** The [TableResult] that [SetTableMeetError] allocates for a new schema. *)
Definition errorTable (err : error) : TableResult :=
  {| Schema := ""; Table := ""; StructEqual := false;
     DataSkip := false; DataEqual := false; MeetError := err;
     ChunkMap := None |}.

(** An outcome can be reported: it is equal, or its table is tracked. *)
Definition reportable `{Collaborators} (r : Report) (o : ChunkOutcome) : Prop :=
  co_equal o = false → tracked r (co_schema o) (co_table o).

(** All tables of a report, in the order in which the nested loops
    [for schema, tableMap := range ... { for table, result := range tableMap ]
    visit them. *)
Definition tables `{MapOrder} (m : gmap string (gmap string TableResult))
  : list (string * string * TableResult) :=
  range m ≫= λ '(schema, tableMap),
    (λ '(table, result), (schema, table, result)) <$> range tableMap.

(** The key of an element of [tables]. *)
Definition table_key (x : string * string * TableResult) : string * string :=
  (x.1.1, x.1.2).

(** The tables of a live report after those of a loaded one were stored into
    it: per schema, the loaded tables take precedence. *)
Definition mergeTables (loaded live : gmap string (gmap string TableResult))
  : gmap string (gmap string TableResult) :=
  union_with (λ a b, Some (a ∪ b)) loaded live.

(** One step of the loop of the error shape. *)
Definition print_error_step `{Collaborators} (acc : outcome string)
  (x : string * string * TableResult) : outcome string :=
  and_then acc (λ summary,
    match MeetError x.2 with
    | None => Panics ""
    | Some msg =>
      Returns (summary +:+ msg +:+ " error occured in "
               +:+ TableName x.1.1 x.1.2 +:+ newline)
    end).

(** The lines of the error shape, one per table that recorded an error. *)
Definition error_lines `{Collaborators} (l : list (string * string * TableResult)) : string :=
  foldr (λ x rest,
    match MeetError x.2 with
    | None => rest
    | Some msg =>
      msg +:+ " error occured in " +:+ TableName x.1.1 x.1.2 +:+ newline +:+ rest
    end) "" l.

(** One step of the loops of [CalculateTotalSize]. *)
Definition size_step `{Collaborators} (db : string → string → Z * error)
  (acc : outcome (Report * list string)) (x : string * string * TableResult)
  : outcome (Report * list string) :=
  and_then acc (λ '(r, warned),
    let '(size, err) := db x.1.1 x.1.2 in
    match (match err with
           | Some _ => SetTableMeetError x.1.1 x.1.2 err r
           | None => Returns r
           end) with
    | Panics r => Panics (r, warned)
    | Returns r =>
      if size =? 0
      then Returns (r, warned ++ [TableName x.1.1 x.1.2])
      else Returns (set_TotalSize (wrap64 (TotalSize r + size)) r, warned)
    end).

(** What [CalculateTotalSize] does to the result of one table. *)
Definition recordSizeError (db : string → string → Z * error)
  (schema table : string) (tr : TableResult) : TableResult :=
  match (db schema table).2 with
  | Some _ => set_MeetError (db schema table).2 tr
  | None => tr
  end.

(** The size fetched for a table, and whether fetching it failed. *)
Definition fetched_size (db : string → string → Z * error)
  (x : string * string * TableResult) : Z := (db x.1.1 x.1.2).1.
Definition fetch_failed (db : string → string → Z * error)
  (x : string * string * TableResult) : Prop := is_Some (db x.1.1 x.1.2).2.

(** [r.TotalSize += size] for every table whose size is not zero. *)
Definition add_sizes (db : string → string → Z * error) (total : Z)
  (l : list (string * string * TableResult)) : Z :=
  foldl (λ total x,
    if fetched_size db x =? 0 then total
    else wrap64 (total + fetched_size db x)) total l.

(** A table has failures. *)
Definition failing (tr : TableResult) : Prop :=
  StructEqual tr = false ∨ DataEqual tr = false.

Global Instance failing_dec tr : Decision (failing tr).
Proof. unfold failing. apply _. Defined.

(** The sum of a field over the chunk results recorded for a table. *)
Definition sumZ (l : list Z) : Z := foldr Z.add 0 l.

Definition totalRows (f : ChunkResult → Z)
  (chunkMap : option (gmap string ChunkResult)) : Z :=
  sumZ (f <$> (map_to_list (default ∅ chunkMap)).*2).

(** The row of the diff table for one table: its name, its structure
    equality and [+<added>/-<deleted>], the sums being Go [int]s. *)
Definition diff_row `{Collaborators} (x : string * string * TableResult)
  : list string :=
  [TableName x.1.1 x.1.2;
   if StructEqual x.2 then "true" else "false";
   fmtDiff (wrap64 (totalRows RowsAdd (ChunkMap x.2)))
           (wrap64 (totalRows RowsDelete (ChunkMap x.2)))].

(** The chunk result stored under [id] is kept by a snapshot at [chunkID]. *)
Definition keepChunk `{Collaborators} (chunkID : ChunkID) (id : string) : bool :=
  match FromString id with
  | inr sid => Compare sid chunkID <=? 0
  | inl _ => false
  end.

(** The copy of a table result that [GetSnapshot] makes. *)
Definition snapshotTable `{Collaborators} (chunkID : ChunkID)
  (result : TableResult) : TableResult :=
  {| Schema := Schema result; Table := Table result;
     StructEqual := StructEqual result; DataSkip := false;
     DataEqual := DataEqual result; MeetError := MeetError result;
     ChunkMap := Some (filter (λ kv, keepChunk chunkID kv.1 = true)
                              (default ∅ (ChunkMap result))) |}.

(** The id string is one that [ChunkID.FromString] accepts. *)
Definition parsable `{Collaborators} (id : string) : Prop :=
  ∃ sid, FromString id = inr sid.

(** Go's [<] on strings. *)
Definition string_lt (a b : string) : Prop := String.ltb a b = true.

(** One iteration of each of the three loops of [GetSnapshot]. *)
Definition snapshot_chunk_step `{Collaborators} (chunkID : ChunkID)
  (chunkRes : gmap string ChunkResult) (x : string * ChunkResult)
  : string + gmap string ChunkResult :=
  let '(id, chunkResult) := x in
  sid ← FromString id;;;
  inr (if Compare sid chunkID <=? 0
       then <[id := chunkResult]> chunkRes else chunkRes).

Definition snapshot_table_step `{MapOrder, Collaborators} (chunkID : ChunkID)
  (targetID schema : string) (reserveMap : gmap string (gmap string TableResult))
  (x : string * TableResult) : string + gmap string (gmap string TableResult) :=
  let '(table, result) := x in
  let reportID := UniqueID schema table in
  if String.leb targetID reportID then
    let chunkRes : gmap string ChunkResult := ∅ in
    let reserveMap := store2 reserveMap schema table
      {| Schema := Schema result; Table := Table result;
         StructEqual := StructEqual result; DataSkip := false;
         DataEqual := DataEqual result; MeetError := MeetError result;
         ChunkMap := None |} in
    chunkRes ←
      foldlM (snapshot_chunk_step chunkID)
        (range (default ∅ (ChunkMap result))) chunkRes;;;
    inr (match lookup2 reserveMap schema table with
         | Some snap =>
           store2 reserveMap schema table (set_ChunkMap (Some chunkRes) snap)
         | None => reserveMap
         end)
  else inr reserveMap.

Definition snapshot_schema_step `{MapOrder, Collaborators} (chunkID : ChunkID)
  (targetID : string) (reserveMap : gmap string (gmap string TableResult))
  (x : string * gmap string TableResult)
  : string + gmap string (gmap string TableResult) :=
  let '(schema, tableMap) := x in
  foldlM (snapshot_table_step chunkID targetID schema) (range tableMap)
         (<[schema := ∅]> reserveMap).

(** Two tables, the first with an unequal chunk: the overall [Result] is
    ["fail"]. *)
Definition sample_failed : Report :=
  after (SetTableDataCheckResult (H := Sample.collaborators)
           "test" "t1" false 2 1 (Sample.mkChunkID 0 1 3)
           (Init 0 [mkTableDiff "test" "t1"; mkTableDiff "test" "t2"]
              ["source"] "target" (NewReport Sample.sampleTask))).

(** Then the second table meets an error: the overall [Result] is ["error"]. *)
Definition sample_errored : Report :=
  after (SetTableMeetError "test" "t2" (Some "connection lost") sample_failed).

(** The snapshot of [sample_failed] taken at chunk 1 of 3 of the first table,
    with the second table as target. *)
Definition sample_snapshot : Report :=
  match GetSnapshot (H := Sample.order) (H0 := Sample.collaborators) 10
          (Sample.mkChunkID 0 1 3) "test" "t2" sample_failed with
  | inr snap => snap
  | inl _ => sample_failed
  end.

(** A call of one of the three setters of the report. *)
Inductive update `{Collaborators} : Type :=
  | Check (c : call)
  | MeetErr (schema table : string) (err : error).

Definition apply_update `{Collaborators} (u : update) (r : Report)
  : outcome Report :=
  match u with
  | Check c => apply_call c r
  | MeetErr schema table err => SetTableMeetError schema table err r
  end.

Definition run_updates `{Collaborators} (us : list update) (r : Report)
  : outcome Report :=
  foldl (λ acc u, and_then acc (apply_update u)) (Returns r) us.

(** The overall result [b] is [a] or an escalation of it. *)
Definition escalates (a b : string) : Prop :=
  b = a ∨ (a ≠ Error ∧ b = Fail) ∨ b = Error.

(** The outcome reports an inequality in a chunk of the given table. *)
Definition reported_unequal `{Collaborators} (schema table : string)
  (o : ChunkOutcome) : Prop :=
  co_equal o = false ∧ co_schema o = schema ∧ co_table o = table.

Global Instance reported_unequal_dec `{Collaborators} schema table o :
  Decision (reported_unequal schema table o).
Proof. unfold reported_unequal. apply _. Defined.

(** The chunk-id string under which an outcome is recorded. *)
Definition outcome_key `{Collaborators} (o : ChunkOutcome) : string :=
  ToString (co_id o).

(** The number of tables that pass, and of those that fail. *)
Definition count_equal (l : list (string * string * TableResult)) : Z :=
  Z.of_nat (length (filter (λ x, ¬ failing x.2) l)).
Definition count_failing (l : list (string * string * TableResult)) : Z :=
  Z.of_nat (length (filter (λ x, failing x.2) l)).

(** What [Print] writes about one table when the overall result is
    ["fail"]. *)
Definition table_report `{Collaborators} (x : string * string * TableResult)
  : string :=
  (if negb (StructEqual x.2) then
     if DataSkip x.2
     then "The structure of " +:+ TableName x.1.1 x.1.2
          +:+ " is not equal, and data-check is skipped" +:+ newline
     else "The structure of " +:+ TableName x.1.1 x.1.2
          +:+ " is not equal" +:+ newline
   else "")
  +:+ (if negb (DataEqual x.2)
       then "The data of " +:+ TableName x.1.1 x.1.2 +:+ " is not equal" +:+ newline
       else "").

(** The initialized report from which [sample_failed] starts, the result of
    its first table, and an answer of the database to the size queries (the
    second table's query fails, yet with a size). *)
Definition sample_init : Report :=
  Init 0 [mkTableDiff "test" "t1"; mkTableDiff "test" "t2"]
    ["source"] "target" (NewReport Sample.sampleTask).

Definition sample_t1 : TableResult :=
  {| Schema := "test"; Table := "t1"; StructEqual := true; DataSkip := false;
     DataEqual := false; MeetError := None;
     ChunkMap := Some {[ "0:1:3" := mkChunkResult 2 1 ]} |}.

Definition sample_db (schema table : string) : Z * error :=
  if String.eqb table "t1" then (5, None) else (7, Some "timeout").

(** Three unequal outcomes, two of them for the same chunk of the first
    table. *)
Definition sample_outcomes : list (@ChunkOutcome Sample.collaborators) :=
  [@mkChunkOutcome Sample.collaborators "test" "t1" false 2 1
     (Sample.mkChunkID 0 1 3);
   @mkChunkOutcome Sample.collaborators "test" "t2" false 0 4
     (Sample.mkChunkID 1 0 2);
   @mkChunkOutcome Sample.collaborators "test" "t1" false 5 0
     (Sample.mkChunkID 0 1 3)].

(** ** The statements of the design document that the code does not meet *)

(** "Fetching a table's size is best-effort, never fatal, and
    [CalculateTotalSize] is read-only with respect to the core invariants":
    the overall [Result], the equality flags and the [MeetError] of every
    table are the same before and after. *)
Definition total_size_is_read_only `{MapOrder, Collaborators}
  (db : string → string → Z * error) (r : Report) : Prop :=
  let r' := (after (CalculateTotalSize db r)).1 in
  Result r' = Result r
  ∧ ∀ schema table,
      (StructEqual <$> lookupTable r' schema table)
      = (StructEqual <$> lookupTable r schema table)
      ∧ (DataEqual <$> lookupTable r' schema table)
        = (DataEqual <$> lookupTable r schema table)
      ∧ (MeetError <$> lookupTable r' schema table)
        = (MeetError <$> lookupTable r schema table).

(** "Whenever any table has failures, the summary file contains a table with
    columns [Table | Structure equality | Data diff rows]". *)
Definition summary_shows_failures `{MapOrder, Collaborators} (now : Z)
  (r : Report) : Prop :=
  (∃ schema table tr, lookupTable r schema table = Some tr ∧ failing tr) →
  ∃ rows, TableView ["Table"; "Structure equality"; "Data diff rows"] rows
          ∈ (CommitSummary now None r).2.

(** * Properties *)

(** ** Integers *)

Lemma wrap_add_l bits a b : wrap bits (wrap bits a + b) = wrap bits (a + b).
Proof.
  unfold wrap. f_equal.
  replace ((a + 2 ^ (bits - 1)) mod 2 ^ bits - 2 ^ (bits - 1) + b + 2 ^ (bits - 1))
    with ((a + 2 ^ (bits - 1)) mod 2 ^ bits + b) by lia.
  rewrite Zplus_mod_idemp_l. f_equal. lia.
Qed.

Lemma wrap_add_swap bits c a b :
  wrap bits (wrap bits (c + a) + b) = wrap bits (wrap bits (c + b) + a).
Proof. rewrite !wrap_add_l. f_equal. lia. Qed.

Lemma wrap64_add_l a b : wrap64 (wrap64 a + b) = wrap64 (a + b).
Proof. apply wrap_add_l. Qed.

Lemma wrap64_small z : - 2 ^ 63 <= z < 2 ^ 63 → wrap64 z = z.
Proof.
  intros Hz. unfold wrap64, wrap.
  change (2 ^ (64 - 1)) with (2 ^ 63). change (2 ^ 64) with (2 * 2 ^ 63).
  rewrite Z.mod_small; lia.
Qed.

(** ** Nested maps *)

Section nested.
Context {A : Type}.
Implicit Types m : gmap string (gmap string A).

Lemma lookup2_store2 m s t v s' t' :
  lookup2 (store2 m s t v) s' t'
  = if decide (s = s' ∧ t = t') then Some v else lookup2 m s' t'.
Proof.
  unfold lookup2, store2.
  destruct (decide (s = s')) as [<-|Hs].
  - rewrite lookup_insert_eq. simpl.
    destruct (decide (t = t')) as [<-|Ht].
    + rewrite lookup_insert_eq. by rewrite decide_True.
    + rewrite lookup_insert_ne by done.
      rewrite decide_False by (by intros [_ ?]).
      by destruct (m !! s).
  - rewrite lookup_insert_ne by done.
    by rewrite decide_False by (by intros [? _]).
Qed.

Lemma lookup2_store2_eq m s t v : lookup2 (store2 m s t v) s t = Some v.
Proof. rewrite lookup2_store2. by rewrite decide_True. Qed.

Lemma lookup2_store2_ne m s t v s' t' :
  (s, t) ≠ (s', t') → lookup2 (store2 m s t v) s' t' = lookup2 m s' t'.
Proof.
  intros Hne. rewrite lookup2_store2. rewrite decide_False; [done|].
  intros [-> ->]. done.
Qed.

Lemma store2_store2 m s t v w : store2 (store2 m s t v) s t w = store2 m s t w.
Proof.
  unfold store2. rewrite lookup_insert_eq. simpl.
  by rewrite !insert_insert_eq.
Qed.

Lemma store2_commute m s t v s' t' w :
  (s, t) ≠ (s', t') →
  store2 (store2 m s t v) s' t' w = store2 (store2 m s' t' w) s t v.
Proof.
  intros Hne. unfold store2.
  destruct (decide (s = s')) as [<-|Hs].
  - rewrite !lookup_insert_eq. simpl. rewrite !insert_insert_eq.
    f_equal. apply insert_insert_ne. congruence.
  - rewrite !lookup_insert_ne by done.
    by apply insert_insert_ne.
Qed.

Lemma store2_dom m s t v : dom (store2 m s t v) = {[s]} ∪ dom m.
Proof. unfold store2. by rewrite dom_insert_L. Qed.

Lemma lookup2_Some m s t v :
  lookup2 m s t = Some v ↔ ∃ tm, m !! s = Some tm ∧ tm !! t = Some v.
Proof.
  unfold lookup2. destruct (m !! s) as [tm|]; simpl.
  - split; [eauto|]. intros (tm' & Heq & Ht). by simplify_eq.
  - split; [done|]. by intros (tm' & Heq & _).
Qed.

Lemma lookup2_None m s t :
  lookup2 m s t = None ↔ m !! s = None ∨ ∃ tm, m !! s = Some tm ∧ tm !! t = None.
Proof.
  unfold lookup2. destruct (m !! s) as [tm|]; simpl.
  - split; [intros; right; eauto|]. intros [?|(tm' & ? & ?)]; by simplify_eq.
  - split; [by left|done].
Qed.
End nested.

(** ** The setters, case by case *)

Lemma escalate_Result r :
  Result (escalate r) = if bool_decide (Result r = Error) then Error else Fail.
Proof.
  unfold escalate. destruct (decide (Result r = Error)) as [He|He].
  - rewrite bool_decide_false by (intros Hn; by apply Hn).
    by rewrite bool_decide_true.
  - rewrite bool_decide_true by done. by rewrite bool_decide_false.
Qed.

Lemma escalate_idemp r : escalate (escalate r) = escalate r.
Proof.
  unfold escalate at 1. rewrite escalate_Result.
  destruct (decide (Result r = Error)) as [He|He].
  - rewrite (bool_decide_true _ He).
    rewrite bool_decide_false; [done|]. intros Hn. by apply Hn.
  - rewrite (bool_decide_false _ He). unfold escalate.
    by rewrite !bool_decide_true.
Qed.

Lemma escalate_storeTable r s t v :
  escalate (storeTable r s t v) = storeTable (escalate r) s t v.
Proof. unfold escalate. simpl. by case_bool_decide. Qed.

Lemma escalate_TableResults r : TableResults (escalate r) = TableResults r.
Proof. unfold escalate. by case_bool_decide. Qed.

Lemma lookupTable_escalate r s t : lookupTable (escalate r) s t = lookupTable r s t.
Proof. unfold lookupTable. by rewrite escalate_TableResults. Qed.

Lemma lookupTable_storeTable r s t v s' t' :
  lookupTable (storeTable r s t v) s' t'
  = if decide (s = s' ∧ t = t') then Some v else lookupTable r s' t'.
Proof. apply lookup2_store2. Qed.

Lemma storeTable_storeTable r s t v w :
  storeTable (storeTable r s t v) s t w = storeTable r s t w.
Proof. unfold storeTable. simpl. by rewrite store2_store2. Qed.

Lemma storeTable_commute r s t v s' t' w :
  (s, t) ≠ (s', t') →
  storeTable (storeTable r s t v) s' t' w = storeTable (storeTable r s' t' w) s t v.
Proof. intros Hne. unfold storeTable. simpl. by rewrite store2_commute. Qed.

Section setters.
Context `{Collaborators}.

Lemma SetTableDataCheckResult_equal schema table rowsAdd rowsDelete id r :
  SetTableDataCheckResult schema table true rowsAdd rowsDelete id r = Returns r.
Proof. reflexivity. Qed.

Lemma SetTableDataCheckResult_nil_table schema table rowsAdd rowsDelete id r :
  lookupTable r schema table = None →
  SetTableDataCheckResult schema table false rowsAdd rowsDelete id r = Panics r.
Proof. intros Hl. unfold SetTableDataCheckResult. simpl. by rewrite Hl. Qed.

Lemma SetTableDataCheckResult_nil_map schema table rowsAdd rowsDelete id r tr :
  lookupTable r schema table = Some tr → ChunkMap tr = None →
  SetTableDataCheckResult schema table false rowsAdd rowsDelete id r
  = Panics (storeTable r schema table (set_DataEqual false tr)).
Proof.
  intros Hl Hc. unfold SetTableDataCheckResult. simpl. rewrite Hl. simpl.
  by rewrite Hc.
Qed.

Lemma alter_alter_bump key rowsAdd rowsDelete (chunkMap : gmap string ChunkResult) :
  alter (λ c, set_RowsDelete (wrap64 (RowsDelete c + rowsDelete)) c) key
    (alter (λ c, set_RowsAdd (wrap64 (RowsAdd c + rowsAdd)) c) key
      match chunkMap !! key with
      | None => <[key := mkChunkResult 0 0]> chunkMap
      | Some _ => chunkMap
      end)
  = bumpChunks key rowsAdd rowsDelete chunkMap.
Proof.
  unfold bumpChunks. apply map_eq. intros k.
  destruct (decide (k = key)) as [->|Hk].
  - rewrite lookup_insert_eq, !lookup_alter_eq.
    destruct (chunkMap !! key) as [c|] eqn:Hc.
    + by rewrite Hc.
    + by rewrite lookup_insert_eq.
  - rewrite lookup_insert_ne, !lookup_alter_ne by done.
    destruct (chunkMap !! key); [done|]. by rewrite lookup_insert_ne.
Qed.

Lemma SetTableDataCheckResult_unequal schema table rowsAdd rowsDelete id r tr :
  lookupTable r schema table = Some tr → is_Some (ChunkMap tr) →
  SetTableDataCheckResult schema table false rowsAdd rowsDelete id r
  = Returns (escalate (storeTable r schema table
               (bumpTable (ToString id) rowsAdd rowsDelete tr))).
Proof.
  intros Hl [cm Hc]. unfold SetTableDataCheckResult. simpl. rewrite Hl. simpl.
  rewrite Hc. simpl. rewrite alter_alter_bump.
  unfold bumpTable, escalate. rewrite Hc. simpl.
  destruct (bool_decide (Result r ≠ Error)) eqn:Hb; simpl; [done|].
  by rewrite Hb.
Qed.

Lemma SetTableStructCheckResult_Result schema table equal skip r :
  Result r = Error →
  Result (after (SetTableStructCheckResult schema table equal skip r)) = Error.
Proof.
  intros He. unfold SetTableStructCheckResult.
  destruct (lookupTable r schema table); simpl; [|done].
  rewrite bool_decide_false by (intros Hn; by apply Hn).
  by rewrite andb_false_r.
Qed.

Lemma SetTableDataCheckResult_Result schema table equal rowsAdd rowsDelete id r :
  Result r = Error →
  Result (after (SetTableDataCheckResult schema table equal rowsAdd rowsDelete
                   id r)) = Error.
Proof.
  intros He. destruct equal; [done|].
  destruct (lookupTable r schema table) as [tr|] eqn:Hl.
  - destruct (ChunkMap tr) as [cm|] eqn:Hc.
    + rewrite (SetTableDataCheckResult_unequal _ _ _ _ _ _ tr) by (by rewrite ?Hc).
      simpl. rewrite escalate_Result. simpl. by rewrite bool_decide_true.
    + by rewrite (SetTableDataCheckResult_nil_map _ _ _ _ _ _ tr).
  - by rewrite SetTableDataCheckResult_nil_table.
Qed.

Lemma apply_call_Result c r :
  Result r = Error → Result (after (apply_call c r)) = Error.
Proof.
  destruct c; simpl.
  - apply SetTableStructCheckResult_Result.
  - apply SetTableDataCheckResult_Result.
Qed.

Lemma run_calls_snoc cs c r :
  run_calls (cs ++ [c]) r = and_then (run_calls cs r) (apply_call c).
Proof. unfold run_calls. by rewrite foldl_app. Qed.

(** C2. Error dominance: from a report whose overall [Result] is ["error"],
    every finite sequence of [SetTableStructCheckResult] and
    [SetTableDataCheckResult] calls, whatever their arguments, leaves the
    overall [Result] equal to ["error"] (also in the state left behind by a
    call that panics); it never becomes ["pass"] or ["fail"]. *)
Theorem error_is_never_downgraded (cs : list call) (r : Report) :
  Result r = Error →
  Result (after (run_calls cs r)) = Error
  ∧ Result (after (run_calls cs r)) ≠ Pass
  ∧ Result (after (run_calls cs r)) ≠ Fail.
Proof.
  intros He.
  assert (Result (after (run_calls cs r)) = Error) as Hres.
  { induction cs as [|c cs IH] using rev_ind; [done|].
    rewrite run_calls_snoc.
    destruct (run_calls cs r) as [r'|r']; simpl in *; [|done].
    by apply apply_call_Result. }
  rewrite Hres. by repeat split.
Qed.
End setters.

(** ** [Init] *)

Lemma lookup2_insert_empty {A} (m : gmap string (gmap string A)) s s' t :
  m !! s = None → lookup2 (<[s := ∅]> m) s' t = lookup2 m s' t.
Proof.
  intros Hs. unfold lookup2. destruct (decide (s = s')) as [<-|Hne].
  - by rewrite lookup_insert_eq, Hs.
  - by rewrite lookup_insert_ne.
Qed.

Lemma Init_spec now tableDiffs sourceConfig targetConfig r :
  let r' := Init now tableDiffs sourceConfig targetConfig r in
  Result r' = Result r
  ∧ ∀ schema table,
      lookupTable r' schema table
      = if decide (mkTableDiff schema table ∈ tableDiffs)
        then Some (freshTable schema table) else lookupTable r schema table.
Proof.
  unfold Init.
  match goal with |- context [foldl ?f ?a _] => set (body := f); set (r0 := a) end.
  simpl.
  change (Result r) with (Result r0).
  change (lookupTable r) with (lookupTable r0).
  clearbody r0. revert r0.
  induction tableDiffs as [|td tds IH]; intros r0; simpl.
  - split; [done|]. intros schema table.
    by rewrite ?decide_False by apply not_elem_of_nil.
  - destruct (IH (body r0 td)) as [IHR IHT].
    split.
    + rewrite IHR. unfold body. by destruct (TableResults r0 !! td_Schema td).
    + intros schema table. rewrite IHT.
      destruct (decide (mkTableDiff schema table ∈ tds)) as [Hin|Hin].
      * rewrite decide_True; [done|]. by apply elem_of_cons; right.
      * unfold body. rewrite lookupTable_storeTable.
        destruct td as [s t]. simpl.
        destruct (decide (s = schema ∧ t = table)) as [[-> ->]|Hne].
        -- rewrite decide_True; [done|]. apply elem_of_cons; by left.
        -- rewrite decide_False.
           2:{ intros [Heq|?]%elem_of_cons; [|done]. apply Hne. by simplify_eq. }
           destruct (TableResults r0 !! s) eqn:Hs; [done|].
           unfold lookupTable. simpl. by apply lookup2_insert_empty.
Qed.

Lemma Init_tracked now tableDiffs sourceConfig targetConfig r schema table :
  mkTableDiff schema table ∈ tableDiffs →
  tracked (Init now tableDiffs sourceConfig targetConfig r) schema table.
Proof.
  intros Hin. unfold tracked.
  destruct (Init_spec now tableDiffs sourceConfig targetConfig r) as [_ Hl].
  rewrite Hl, decide_True by done. by eexists.
Qed.

(** ** [SetTableMeetError] *)

Lemma SetTableMeetError_new_schema schema table err r :
  TableResults r !! schema = None →
  ∃ r', SetTableMeetError schema table err r = Returns r'
        ∧ lookupTable r' schema table = Some (errorTable err)
        ∧ Result r' = Result r.
Proof.
  intros Hs. unfold SetTableMeetError. rewrite Hs. eexists. split; [done|].
  split; [|done]. unfold lookupTable, lookup2. simpl.
  rewrite lookup_insert_eq. simpl. by rewrite lookup_singleton_eq.
Qed.

Lemma SetTableMeetError_known_table schema table err r tr :
  lookupTable r schema table = Some tr →
  ∃ r', SetTableMeetError schema table err r = Returns r'
        ∧ lookupTable r' schema table = Some (set_MeetError err tr)
        ∧ Result r' = Error.
Proof.
  intros (tm & Hs & Ht)%lookup2_Some. unfold SetTableMeetError.
  rewrite Hs, Ht. eexists. split; [done|]. split; [|done].
  unfold lookupTable. simpl. apply lookup2_store2_eq.
Qed.

Lemma SetTableMeetError_nil_table schema table err r tm :
  TableResults r !! schema = Some tm → tm !! table = None →
  SetTableMeetError schema table err r = Panics r.
Proof. intros Hs Ht. unfold SetTableMeetError. by rewrite Hs, Ht. Qed.

(** C10. [SetTableMeetError] handles an absent schema and a known table, but
    not an absent table of a present schema: it panics (leaving the report
    untouched) exactly when the schema key exists and the table key does not,
    and returns in every other state.  Such a state is reachable: after [Init]
    registered one table of a schema, a call for another table of that schema
    panics. *)
Theorem SetTableMeetError_panics_iff_table_missing :
  (∀ schema table err r,
     (returned (SetTableMeetError schema table err r) = false
      ↔ ∃ tm, TableResults r !! schema = Some tm ∧ tm !! table = None)
     ∧ (returned (SetTableMeetError schema table err r) = false →
        SetTableMeetError schema table err r = Panics r)
     ∧ (TableResults r !! schema = None ∨ is_Some (lookupTable r schema table) →
        returned (SetTableMeetError schema table err r) = true))
  ∧ (∀ now task schema t1 t2 err, t1 ≠ t2 →
       SetTableMeetError schema t2 err
         (Init now [mkTableDiff schema t1] [] "" (NewReport task))
       = Panics (Init now [mkTableDiff schema t1] [] "" (NewReport task))).
Proof.
  split.
  - intros schema table err r.
    destruct (TableResults r !! schema) as [tm|] eqn:Hs.
    + destruct (tm !! table) as [tr|] eqn:Ht.
      * destruct (SetTableMeetError_known_table schema table err r tr)
          as (r' & -> & _).
        { apply lookup2_Some. eauto. }
        simpl. split; [|split]; try done.
        split; [done|]. intros (tm' & ? & ?). by simplify_eq.
      * rewrite (SetTableMeetError_nil_table _ _ _ _ tm) by done. simpl.
        split; [|split]; try done.
        -- split; [eauto|done].
        -- intros [?|[tr (tm' & ? & ?)%lookup2_Some]]; by simplify_eq.
    + destruct (SetTableMeetError_new_schema schema table err r Hs)
        as (r' & -> & _).
      simpl. split; [|split]; try done.
      split; [done|]. intros (tm' & ? & ?). by simplify_eq.
  - intros now task schema t1 t2 err Hne.
    apply (SetTableMeetError_nil_table _ _ _ _ {[t1 := freshTable schema t1]}).
    + unfold Init, storeTable, store2. simpl. rewrite lookup_empty. simpl.
      rewrite !lookup_insert_eq. simpl. by rewrite insert_empty.
    + by rewrite lookup_singleton_ne.
Qed.

(** C3. [SetTableMeetError] called for a schema that has no entry in
    [TableResults] records the error but returns early, before the statement
    that sets the overall [Result]: on a new report the error is stored in the
    table's [MeetError] and the overall [Result] is still ["pass"]. *)
Theorem SetTableMeetError_new_schema_leaves_Result :
  ∃ r', SetTableMeetError "shop" "orders" (Some "connection lost")
          (NewReport Sample.sampleTask) = Returns r'
        ∧ (MeetError <$> lookupTable r' "shop" "orders")
          = Some (Some "connection lost")
        ∧ Result r' = Pass
        ∧ Result r' ≠ Error.
Proof.
  destruct (SetTableMeetError_new_schema "shop" "orders" (Some "connection lost")
              (NewReport Sample.sampleTask)) as (r' & Hr & Hl & HR); [done|].
  exists r'. split; [done|]. rewrite Hl, HR. by repeat split.
Qed.

(** ** Accumulation of chunk outcomes *)

Section accumulation.
Context `{Collaborators}.

(** C7. Scenario: on an initialized report, the three chunks of table [t1]
    are reported in turn, chunks 0 and 2 equal and chunk 1 with
    [rowsAdd = 2] and [rowsDelete = 1].  Afterwards [DataEqual] of [t1] is
    false, its [ChunkMap] is exactly the one entry mapping the id string of
    chunk 1 to [{RowsAdd: 2, RowsDelete: 1}] (so it has no entry under any
    other key), and the overall [Result] is ["fail"]. *)
Theorem three_chunks_one_unequal now tableDiffs sourceConfig targetConfig task
    schema t1 (id0 id1 id2 : ChunkID) a0 d0 a2 d2 :
  mkTableDiff schema t1 ∈ tableDiffs →
  ∃ r tr,
    run_calls [DataCheck schema t1 true a0 d0 id0;
               DataCheck schema t1 false 2 1 id1;
               DataCheck schema t1 true a2 d2 id2]
      (Init now tableDiffs sourceConfig targetConfig (NewReport task))
    = Returns r
    ∧ lookupTable r schema t1 = Some tr
    ∧ DataEqual tr = false
    ∧ ChunkMap tr = Some {[ ToString id1 := mkChunkResult 2 1 ]}
    ∧ (∀ cm key, ChunkMap tr = Some cm → key ≠ ToString id1 → cm !! key = None)
    ∧ Result r = Fail.
Proof.
  intros Hin.
  destruct (Init_spec now tableDiffs sourceConfig targetConfig (NewReport task))
    as [HR HT].
  specialize (HT schema t1). rewrite decide_True in HT by done.
  set (r0 := Init now tableDiffs sourceConfig targetConfig (NewReport task)) in *.
  unfold run_calls. cbn [foldl and_then apply_call].
  rewrite SetTableDataCheckResult_equal. cbn [and_then apply_call].
  rewrite (SetTableDataCheckResult_unequal _ _ _ _ _ _ _ HT) by (by eexists).
  cbn [and_then apply_call]. rewrite SetTableDataCheckResult_equal.
  eexists _, _. split; [done|].
  split. { rewrite lookupTable_escalate. apply lookup2_store2_eq. }
  split; [done|].
  assert (bumpChunks (ToString id1) 2 1 ∅ = {[ ToString id1 := mkChunkResult 2 1 ]})
    as Hb.
  { unfold bumpChunks. rewrite lookup_empty. simpl. by rewrite insert_empty. }
  simpl. rewrite Hb. split; [done|]. split.
  - intros cm key [= <-] Hne. by rewrite lookup_singleton_ne.
  - rewrite escalate_Result. simpl. by rewrite HR.
Qed.

(** Adding to a chunk entry commutes. *)
Lemma bumpChunks_commute k1 a1 d1 k2 a2 d2 (cm : gmap string ChunkResult) :
  bumpChunks k2 a2 d2 (bumpChunks k1 a1 d1 cm)
  = bumpChunks k1 a1 d1 (bumpChunks k2 a2 d2 cm).
Proof.
  unfold bumpChunks. destruct (decide (k1 = k2)) as [<-|Hk].
  - rewrite !lookup_insert_eq, !insert_insert_eq. simpl.
    f_equal. f_equal; apply wrap_add_swap.
  - rewrite !lookup_insert_ne by done. by apply insert_insert_ne.
Qed.

Lemma bumpTable_commute k1 a1 d1 k2 a2 d2 tr :
  bumpTable k2 a2 d2 (bumpTable k1 a1 d1 tr)
  = bumpTable k1 a1 d1 (bumpTable k2 a2 d2 tr).
Proof.
  unfold bumpTable. simpl. destruct (ChunkMap tr) as [cm|]; simpl; [|done].
  unfold set_ChunkMap. simpl. by rewrite bumpChunks_commute.
Qed.

Lemma bumpTable_ChunkMap k a d tr :
  is_Some (ChunkMap tr) → is_Some (ChunkMap (bumpTable k a d tr)).
Proof. intros [cm Hc]. unfold bumpTable. simpl. rewrite Hc. by eexists. Qed.

Lemma tracked_inv r schema table :
  tracked r schema table →
  ∃ tr, lookupTable r schema table = Some tr ∧ is_Some (ChunkMap tr).
Proof.
  unfold tracked. destruct (lookupTable r schema table) as [tr|]; simpl.
  - eauto.
  - by intros [? ?].
Qed.

Lemma tracked_store r schema table s t k a d tr :
  lookupTable r s t = Some tr →
  tracked r schema table →
  tracked (escalate (storeTable r s t (bumpTable k a d tr))) schema table.
Proof.
  intros Hl (tr' & Hl' & Hc)%tracked_inv. unfold tracked.
  rewrite lookupTable_escalate, lookupTable_storeTable.
  destruct (decide (s = schema ∧ t = table)) as [[-> ->]|Hne]; simpl.
  - apply bumpTable_ChunkMap. by simplify_eq.
  - by rewrite Hl'.
Qed.

Lemma report_outcome_returns r o :
  reportable r o →
  ∃ r', report_outcome o r = Returns r'
        ∧ ∀ schema table, tracked r schema table → tracked r' schema table.
Proof.
  intros Ho. unfold report_outcome. destruct (co_equal o) eqn:He.
  - rewrite SetTableDataCheckResult_equal. eauto.
  - destruct (tracked_inv _ _ _ (Ho He)) as (tr & Hl & Hc).
    rewrite (SetTableDataCheckResult_unequal _ _ _ _ _ _ _ Hl Hc).
    eexists. split; [done|]. intros schema table. by apply tracked_store.
Qed.

Lemma report_outcome_commute r o1 o2 :
  reportable r o1 → reportable r o2 →
  and_then (report_outcome o1 r) (report_outcome o2)
  = and_then (report_outcome o2 r) (report_outcome o1).
Proof.
  intros H1 H2. unfold report_outcome.
  destruct (co_equal o1) eqn:He1.
  { rewrite SetTableDataCheckResult_equal. simpl.
    destruct (SetTableDataCheckResult _ _ (co_equal o2) _ _ _ r); simpl; [|done].
    by rewrite SetTableDataCheckResult_equal. }
  destruct (co_equal o2) eqn:He2.
  { rewrite (SetTableDataCheckResult_equal (co_schema o2)). simpl.
    destruct (SetTableDataCheckResult _ _ false _ _ _ r); simpl; [|done].
    by rewrite SetTableDataCheckResult_equal. }
  destruct (tracked_inv _ _ _ (H1 He1)) as (tr1 & Hl1 & Hc1).
  destruct (tracked_inv _ _ _ (H2 He2)) as (tr2 & Hl2 & Hc2).
  rewrite (SetTableDataCheckResult_unequal _ _ _ _ _ _ _ Hl1 Hc1).
  rewrite (SetTableDataCheckResult_unequal _ _ _ _ _ _ _ Hl2 Hc2).
  simpl.
  destruct (decide ((co_schema o1, co_table o1) = (co_schema o2, co_table o2)))
    as [[= Hs Ht]|Hne].
  - rewrite Hs, Ht in *. assert (tr1 = tr2) as -> by congruence.
    rewrite (SetTableDataCheckResult_unequal _ _ _ _ _ _
               (bumpTable (ToString (co_id o1)) (co_rowsAdd o1) (co_rowsDelete o1) tr2));
      [|rewrite lookupTable_escalate; apply lookup2_store2_eq
       |by apply bumpTable_ChunkMap].
    rewrite (SetTableDataCheckResult_unequal _ _ _ _ _ _
               (bumpTable (ToString (co_id o2)) (co_rowsAdd o2) (co_rowsDelete o2) tr2));
      [|rewrite lookupTable_escalate; apply lookup2_store2_eq
       |by apply bumpTable_ChunkMap].
    rewrite !escalate_storeTable, !escalate_idemp, !storeTable_storeTable.
    by rewrite bumpTable_commute.
  - rewrite (SetTableDataCheckResult_unequal _ _ _ _ _ _ tr2); [|
      rewrite lookupTable_escalate, lookupTable_storeTable;
      rewrite decide_False; [done|]; intros [? ?]; apply Hne; congruence | done].
    rewrite (SetTableDataCheckResult_unequal _ _ _ _ _ _ tr1); [|
      rewrite lookupTable_escalate, lookupTable_storeTable;
      rewrite decide_False; [done|]; intros [? ?]; apply Hne; congruence | done].
    rewrite !escalate_storeTable, !escalate_idemp.
    f_equal. by apply storeTable_commute.
Qed.

Lemma report_all_cons o os r :
  report_all (o :: os) r = and_then (report_outcome o r) (report_all os).
Proof.
  unfold report_all. simpl.
  destruct (report_outcome o r) as [r'|r']; simpl; [done|].
  induction os as [|o' os IH]; simpl; [done|]. apply IH.
Qed.

Lemma report_all_returns os r :
  Forall (reportable r) os → returned (report_all os r) = true.
Proof.
  revert r. induction os as [|o os IH]; intros r Hos; [done|].
  apply Forall_cons in Hos as [Ho Hos].
  rewrite report_all_cons.
  destruct (report_outcome_returns r o Ho) as (r' & -> & Htr). simpl.
  apply IH. eapply Forall_impl; [done|]. intros o' Ho' He. auto.
Qed.

Lemma report_all_permutation os1 os2 r :
  os1 ≡ₚ os2 → Forall (reportable r) os1 →
  report_all os1 r = report_all os2 r.
Proof.
  intros Hperm. revert r.
  induction Hperm as [|o os1 os2 Hp IH|o1 o2 os|os1 os2 os3 Hp1 IH1 Hp2 IH2];
    intros r Hos.
  - done.
  - apply Forall_cons in Hos as [Ho Hos]. rewrite !report_all_cons.
    destruct (report_outcome_returns r o Ho) as (r' & -> & Htr). simpl.
    apply IH. eapply Forall_impl; [done|]. intros o' Ho' He. auto.
  - apply Forall_cons in Hos as [Ho2 Hos]. apply Forall_cons in Hos as [Ho1 Hos].
    rewrite !report_all_cons.
    pose proof (report_outcome_commute r o1 o2 Ho1 Ho2) as Hc.
    destruct (report_outcome o1 r) as [r1|r1] eqn:E1,
             (report_outcome o2 r) as [r2|r2] eqn:E2; simpl in *.
    + rewrite !report_all_cons. by rewrite Hc.
    + destruct (report_outcome_returns r o2 Ho2) as (? & ? & _). congruence.
    + destruct (report_outcome_returns r o1 Ho1) as (? & ? & _). congruence.
    + destruct (report_outcome_returns r o1 Ho1) as (? & ? & _). congruence.
  - rewrite IH1 by done. apply IH2. by rewrite <- Hp1.
Qed.

(** C5. Reporting the same multiset of chunk outcomes in any order, from the
    same initialized report, ends in the same report: the same [RowsAdd] and
    [RowsDelete] totals in every [ChunkResult], the same [DataEqual] flag
    for every table and the same overall [Result].  The outcomes that
    report an inequality are for tables that [Init] registered, and every
    call returns. *)
Theorem data_check_results_commute (os1 os2 : list ChunkOutcome) (r : Report) :
  os1 ≡ₚ os2 →
  (∀ o, o ∈ os1 → co_equal o = false → tracked r (co_schema o) (co_table o)) →
  returned (report_all os1 r) = true
  ∧ report_all os1 r = report_all os2 r
  ∧ Result (after (report_all os1 r)) = Result (after (report_all os2 r))
  ∧ ∀ schema table,
      lookupTable (after (report_all os1 r)) schema table
      = lookupTable (after (report_all os2 r)) schema table.
Proof.
  intros Hperm Hos.
  assert (Forall (reportable r) os1) as HF by (by apply Forall_forall).
  split; [by apply report_all_returns|].
  rewrite (report_all_permutation os1 os2 r Hperm HF). done.
Qed.
End accumulation.

Section sample_runs.
#[local] Existing Instance Sample.collaborators.
#[local] Existing Instance Sample.order.

Lemma three_chunks_one_unequal_witness :
∃ r tr,
  run_calls
    [DataCheck "test" "t1" true 0 0 (Sample.mkChunkID 0 0 3);
     DataCheck "test" "t1" false 2 1 (Sample.mkChunkID 0 1 3);
     DataCheck "test" "t1" true 0 0 (Sample.mkChunkID 0 2 3)]
    (Init 0 [mkTableDiff "test" "t1"; mkTableDiff "test" "t2"] [] ""
       (NewReport Sample.sampleTask))
  = Returns r
  ∧ lookupTable r "test" "t1" = Some tr
  ∧ DataEqual tr = false
  ∧ ChunkMap tr
    = Some {[ Sample.sampleToString (Sample.mkChunkID 0 1 3)
              := mkChunkResult 2 1 ]}
  ∧ (∀ cm key, ChunkMap tr = Some cm →
       key ≠ Sample.sampleToString (Sample.mkChunkID 0 1 3) →
       cm !! key = None)
  ∧ Result r = Fail.
Proof.
apply (three_chunks_one_unequal (H := Sample.collaborators)).
apply elem_of_cons. by left.
Defined.

Lemma error_is_never_downgraded_witness :
let r := set_Result Error
           (Init 0 [mkTableDiff "test" "t1"] [] "" (NewReport Sample.sampleTask)) in
let cs := [StructCheck "test" "t1" false true;
           DataCheck "test" "t1" false 2 1 (Sample.mkChunkID 0 1 3);
           DataCheck "test" "t9" false 1 0 (Sample.mkChunkID 0 0 1);
           StructCheck "test" "t1" true false] in
Result (after (run_calls cs r)) = Error
∧ Result (after (run_calls cs r)) ≠ Pass
∧ Result (after (run_calls cs r)) ≠ Fail.
Proof.
intros r cs. apply (error_is_never_downgraded (H := Sample.collaborators)).
reflexivity.
Defined.

Lemma data_check_results_commute_witness :
let r := Init 0 [mkTableDiff "test" "t1"; mkTableDiff "test" "t2"] [] ""
           (NewReport Sample.sampleTask) in
let a := mkChunkOutcome "test" "t1" false 2 1 (Sample.mkChunkID 0 1 3) in
let b := mkChunkOutcome "test" "t2" false 0 4 (Sample.mkChunkID 1 0 2) in
let c := mkChunkOutcome "test" "t1" false 5 0 (Sample.mkChunkID 0 1 3) in
let d := mkChunkOutcome "other" "t7" true 0 0 (Sample.mkChunkID 2 0 1) in
returned (report_all [a; b; c; d] r) = true
∧ report_all [a; b; c; d] r = report_all [d; c; b; a] r
∧ Result (after (report_all [a; b; c; d] r))
  = Result (after (report_all [d; c; b; a] r))
∧ ∀ schema table,
    lookupTable (after (report_all [a; b; c; d] r)) schema table
    = lookupTable (after (report_all [d; c; b; a] r)) schema table.
Proof.
intros r a b c d.
apply (data_check_results_commute (H := Sample.collaborators)).
- apply (Permutation_rev [a; b; c; d]).
- intros o Ho He. apply (bool_decide_unpack _).
  repeat (apply elem_of_cons in Ho as [->|Ho]); try (vm_compute; exact I);
    try discriminate He.
  by apply elem_of_nil in Ho.
Defined.
End sample_runs.

(** ** Iteration over maps *)

Section iteration.
Context `{MapOrder}.

Lemma elem_of_range {A} (m : gmap string A) k v :
  (k, v) ∈ range m ↔ m !! k = Some v.
Proof. rewrite (range_perm A m). apply elem_of_map_to_list. Qed.

Lemma NoDup_range_keys {A} (m : gmap string A) : NoDup (range m).*1.
Proof. rewrite (range_perm A m). apply NoDup_fst_map_to_list. Qed.

Lemma NoDup_range {A} (m : gmap string A) : NoDup (range m).
Proof. eapply NoDup_fmap_1, NoDup_range_keys. Qed.

Lemma list_to_map_range {A} (m : gmap string A) :
  list_to_map (range m) = m.
Proof.
  rewrite <- (list_to_map_to_list m) at 2.
  apply list_to_map_proper; [apply NoDup_range_keys|apply range_perm].
Qed.

Lemma range_empty {A} : range (∅ : gmap string A) = [].
Proof.
  apply Permutation_nil_r. rewrite (range_perm A ∅). by rewrite map_to_list_empty.
Qed.

Lemma foldl_ext {A B} (f g : B → A → B) l b :
  (∀ b a, f b a = g b a) → foldl f b l = foldl g b l.
Proof.
  intros Hfg. revert b. induction l as [|a l IH]; intros b; simpl; [done|].
  by rewrite Hfg, IH.
Qed.

(** The nested loops are one loop over [tables]. *)
Lemma foldl_tables {B} (f : B → string → string → TableResult → B) b m :
  foldl (λ b '(schema, tableMap),
           foldl (λ b '(table, result), f b schema table result) b
                 (range tableMap)) b (range m)
  = foldl (λ b x, f b x.1.1 x.1.2 x.2) b (tables m).
Proof.
  unfold tables. revert b.
  induction (range m) as [|[s tm] l IH]; intros b; [done|].
  simpl. rewrite foldl_app, <- IH. f_equal.
  rewrite foldl_fmap. apply foldl_ext. by intros b' [t tr].
Qed.

Lemma elem_of_tables m s t tr :
  (s, t, tr) ∈ tables m ↔ lookup2 m s t = Some tr.
Proof.
  unfold tables. rewrite list_elem_of_bind, lookup2_Some. split.
  - intros ([s' tm] & Hin & Hs). apply list_elem_of_fmap in Hin as ([t' tr'] & Heq & Ht).
    simplify_eq. exists tm. by rewrite <- !elem_of_range.
  - intros (tm & Hs & Ht). exists (s, tm). rewrite list_elem_of_fmap, elem_of_range.
    split; [|done]. exists (t, tr). by rewrite elem_of_range.
Qed.

Lemma NoDup_tables m : NoDup (tables m).
Proof.
  unfold tables. apply NoDup_bind.
  - intros [s1 tm1] [s2 tm2] [[s t] tr] Hin1 Hin2
      ([t1 tr1] & ? & _)%list_elem_of_fmap ([t2 tr2] & ? & _)%list_elem_of_fmap.
    simplify_eq. apply elem_of_range in Hin1, Hin2. congruence.
  - intros [s tm] _. apply NoDup_fmap_2_strong; [|apply NoDup_range].
    intros [t1 tr1] [t2 tr2] _ _ ?. by simplify_eq.
  - apply NoDup_range.
Qed.

Lemma NoDup_table_keys m : NoDup (table_key <$> tables m).
Proof.
  apply NoDup_fmap_2_strong; [|apply NoDup_tables].
  intros [[s1 t1] tr1] [[s2 t2] tr2] Hin1 Hin2 [= -> ->].
  apply elem_of_tables in Hin1, Hin2. congruence.
Qed.

Lemma elem_of_table_keys m s t :
  (s, t) ∈ table_key <$> tables m ↔ is_Some (lookup2 m s t).
Proof.
  rewrite list_elem_of_fmap. split.
  - intros ([[s' t'] tr] & [= -> ->] & Hin). apply elem_of_tables in Hin. eauto.
  - intros [tr Htr]. exists (s, t, tr). by rewrite elem_of_tables.
Qed.

End iteration.

Lemma tables_Permutation (O1 O2 : MapOrder) m :
  @tables O1 m ≡ₚ @tables O2 m.
Proof.
  apply NoDup_Permutation; [apply NoDup_tables..|].
  intros [[s t] tr]. by rewrite !elem_of_tables.
Qed.

(** ** [LoadReport] *)

Lemma set_TableResults_id r : set_TableResults (TableResults r) r = r.
Proof. by destruct r. Qed.

Lemma foldl_storeTable schema (l : list (string * TableResult)) r tm0 :
  NoDup l.*1 → TableResults r !! schema = Some tm0 →
  foldl (λ r '(table, result), storeTable r schema table result) r l
  = set_TableResults (<[schema := list_to_map l ∪ tm0]> (TableResults r)) r.
Proof.
  revert r tm0. induction l as [|[t v] l IH]; intros r tm0 Hnd Hs; simpl.
  - rewrite (left_id_L ∅ (∪)), insert_id by done. by rewrite set_TableResults_id.
  - apply NoDup_cons in Hnd as [Ht Hnd].
    rewrite (IH _ (<[t := v]> tm0)); [|done|].
    2:{ simpl. unfold store2. by rewrite lookup_insert_eq, Hs. }
    simpl. unfold set_TableResults, store2. simpl. rewrite Hs. simpl.
    rewrite insert_insert_eq. do 2 f_equal.
    rewrite <- insert_union_l. symmetry. apply insert_union_r.
    by apply not_elem_of_list_to_map_1.
Qed.

Lemma lookup2_mergeTables loaded live s t :
  lookup2 (mergeTables loaded live) s t
  = match lookup2 loaded s t with
    | Some tr => Some tr
    | None => lookup2 live s t
    end.
Proof.
  unfold lookup2, mergeTables. rewrite lookup_union_with.
  destruct (loaded !! s) as [a|], (live !! s) as [b|]; simpl; try done.
  - rewrite lookup_union. by destruct (a !! t), (b !! t).
  - by destruct (a !! t).
Qed.

Section load.
Context `{MapOrder}.

Lemma LoadReport_tables (l : list (string * gmap string TableResult)) r :
  NoDup l.*1 →
  foldl (λ r '(schema, tableMap),
    let r :=
      match TableResults r !! schema with
      | None => set_TableResults (<[schema := ∅]> (TableResults r)) r
      | Some _ => r
      end in
    foldl (λ r '(table, result), storeTable r schema table result)
          r (range tableMap)) r l
  = set_TableResults (mergeTables (list_to_map l) (TableResults r)) r.
Proof.
  revert r. induction l as [|[s tm] l IH]; intros r Hnd.
  - simpl. unfold mergeTables. rewrite (left_id_L ∅ _).
    by rewrite set_TableResults_id.
  - apply NoDup_cons in Hnd as [Hs Hnd]. cbn [foldl]. rewrite IH by done.
    set (tm0 := default ∅ (TableResults r !! s)).
    rewrite (foldl_storeTable _ _ _ tm0).
    + rewrite list_to_map_range.
      assert (<[s := tm ∪ tm0]>
                (TableResults match TableResults r !! s with
                              | Some _ => r
                              | None => set_TableResults (<[s := ∅]> (TableResults r)) r
                              end)
              = <[s := tm ∪ tm0]> (TableResults r)) as ->.
      { destruct (TableResults r !! s); [done|]. simpl. apply insert_insert_eq. }
      assert (∀ m r', set_TableResults m
                (set_TableResults (<[s := tm ∪ tm0]> (TableResults r))
                   match TableResults r !! s with
                   | Some _ => r
                   | None => r'
                   end) = set_TableResults m match TableResults r !! s with
                                             | Some _ => r
                                             | None => r'
                                             end) as -> by done.
      assert (∀ m, set_TableResults m
                match TableResults r !! s with
                | Some _ => r
                | None => set_TableResults (<[s := ∅]> (TableResults r)) r
                end = set_TableResults m r) as ->.
      { intros m. by destruct (TableResults r !! s). }
      f_equal. simpl. unfold mergeTables. apply map_eq. intros k.
      rewrite !lookup_union_with. destruct (decide (k = s)) as [->|Hk].
      * rewrite !lookup_insert_eq.
        rewrite (not_elem_of_list_to_map_1 l s Hs). subst tm0. simpl.
        destruct (TableResults r !! s); simpl; [done|].
        by rewrite (right_id_L ∅ (∪)).
      * by rewrite !lookup_insert_ne.
    + apply NoDup_range_keys.
    + subst tm0. destruct (TableResults r !! s) eqn:Hr; [done|].
      simpl. by rewrite lookup_insert_eq.
Qed.

Lemma LoadReport_closed_form now reportInfo r :
  LoadReport now reportInfo r
  = {| Result := Result r; PassNum := PassNum r; FailedNum := FailedNum r;
       TableResults := mergeTables (TableResults reportInfo) (TableResults r);
       StartTime := now; Duration := Duration reportInfo;
       TotalSize := TotalSize reportInfo; SourceConfig := SourceConfig r;
       TargetConfig := TargetConfig r; task := task r |}.
Proof.
  unfold LoadReport. rewrite LoadReport_tables by apply NoDup_range_keys.
  by rewrite list_to_map_range.
Qed.

(** C9. [LoadReport] sets the live report's [Duration] and [TotalSize] to the
    snapshot's, resets [StartTime], and stores every [(schema, table)] result
    of the snapshot into the live report; every other field is unchanged.  In
    particular [Result], [PassNum] and [FailedNum] are not taken from the
    snapshot: a fresh report re-hydrated from a snapshot keeps ["pass"],
    whatever the snapshot's [Result] was. *)
Theorem LoadReport_frame now (reportInfo r : Report) :
  let r' := LoadReport now reportInfo r in
  StartTime r' = now
  ∧ Duration r' = Duration reportInfo
  ∧ TotalSize r' = TotalSize reportInfo
  ∧ (∀ schema table tr,
       lookupTable reportInfo schema table = Some tr →
       lookupTable r' schema table = Some tr)
  ∧ (∀ schema table,
       lookupTable reportInfo schema table = None →
       lookupTable r' schema table = lookupTable r schema table)
  ∧ TableResults r' = mergeTables (TableResults reportInfo) (TableResults r)
  ∧ Result r' = Result r
  ∧ PassNum r' = PassNum r
  ∧ FailedNum r' = FailedNum r
  ∧ SourceConfig r' = SourceConfig r
  ∧ TargetConfig r' = TargetConfig r
  ∧ task r' = task r
  ∧ (∀ t, Result (LoadReport now reportInfo (NewReport t)) = Pass).
Proof.
  intros r'. subst r'. rewrite !LoadReport_closed_form. simpl.
  repeat split; try done.
  - intros schema table tr Hl. unfold lookupTable in *. simpl.
    by rewrite lookup2_mergeTables, Hl.
  - intros schema table Hl. unfold lookupTable in *. simpl.
    by rewrite lookup2_mergeTables, Hl.
  - intros t. by rewrite LoadReport_closed_form.
Qed.
End load.

(** ** [Print] *)

Section print.
Context `{MapOrder, Collaborators}.

Lemma Print_error_shape r :
  Result r ≠ Pass → Result r ≠ Fail →
  Print r
  = and_then
      (foldl print_error_step
         (Returns ("Error in comparison process:" +:+ newline))
         (tables (TableResults r)))
      (λ summary, Returns (summary +:+
         "You can view the comparision details through '" +:+ OutputDir (task r)
         +:+ "/" +:+ LogFileName +:+ "'" +:+ newline)).
Proof.
  intros Hp Hf. unfold Print.
  rewrite (bool_decide_false _ Hp), (bool_decide_false _ Hf).
  f_equal.
  exact (foldl_tables
    (λ acc schema table result,
       and_then acc (λ summary,
         match MeetError result with
         | None => Panics ""
         | Some msg =>
           Returns (summary +:+ msg +:+ " error occured in "
                    +:+ TableName schema table +:+ newline)
         end)) _ _).
Qed.

Lemma print_error_step_panics s l :
  foldl print_error_step (Panics s) l = Panics s.
Proof. induction l as [|x l IH]; [done|]. simpl. apply IH. Qed.

Lemma print_error_step_nil_MeetError l s x :
  x ∈ l → MeetError x.2 = None →
  foldl print_error_step (Returns s) l = Panics "".
Proof.
  intros Hin Hx. revert s. induction l as [|y l IH]; intros s.
  - by apply elem_of_nil in Hin.
  - simpl. destruct (MeetError y.2) as [msg|] eqn:Hy.
    + apply elem_of_cons in Hin as [->|Hin]; [congruence|]. by apply IH.
    + apply print_error_step_panics.
Qed.

Lemma string_app_assoc (a b c : string) : (a +:+ b) +:+ c = a +:+ (b +:+ c).
Proof.
  induction a as [|ch a IH]; [done|].
  change (String ch ((a +:+ b) +:+ c) = String ch (a +:+ b +:+ c)).
  by rewrite IH.
Qed.

Lemma string_app_nil_r (a : string) : a +:+ "" = a.
Proof.
  induction a as [|ch a IH]; [done|].
  change (String ch (a +:+ "") = String ch a). by rewrite IH.
Qed.

Lemma print_error_step_all_recorded l s :
  Forall (λ x, is_Some (MeetError x.2)) l →
  foldl print_error_step (Returns s) l = Returns (s +:+ error_lines l).
Proof.
  intros Hl. revert s. induction Hl as [|x l [msg Hx] Hl IH]; intros s;
    cbn [foldl foldr print_error_step and_then error_lines].
  - by rewrite string_app_nil_r.
  - rewrite Hx, IH. f_equal. by rewrite !string_app_assoc.
Qed.

(** In the error shape, one table without a recorded error makes [Print]
    panic on [result.MeetError.Error()]: nothing is written. *)
Lemma Print_error_nil_MeetError r schema table tr :
  Result r ≠ Pass → Result r ≠ Fail →
  lookupTable r schema table = Some tr → MeetError tr = None →
  Print r = Panics "".
Proof.
  intros Hp Hf Hl He. rewrite Print_error_shape by done.
  rewrite (print_error_step_nil_MeetError _ _ (schema, table, tr)); [done| |done].
  by apply elem_of_tables.
Qed.

(** When every table recorded an error, the error shape lists them all. *)
Lemma Print_error_all_recorded r :
  Result r ≠ Pass → Result r ≠ Fail →
  (∀ schema table tr, lookupTable r schema table = Some tr → is_Some (MeetError tr)) →
  Print r
  = Returns (("Error in comparison process:" +:+ newline)
             +:+ error_lines (tables (TableResults r))
             +:+ "You can view the comparision details through '"
             +:+ OutputDir (task r) +:+ "/" +:+ LogFileName +:+ "'" +:+ newline).
Proof.
  intros Hp Hf Hall. rewrite Print_error_shape by done.
  rewrite print_error_step_all_recorded.
  - cbn [and_then]. by rewrite !string_app_assoc.
  - apply Forall_forall. intros [[s t] tr] Hin. apply elem_of_tables in Hin.
    by apply (Hall s t tr).
Qed.

(** C4. After [Init] registered two tables and [SetTableMeetError] recorded an
    error for the first, the overall [Result] is ["error"] and the second
    table has no [MeetError]: whatever the iteration order, [Print] panics
    and writes nothing, instead of writing the one error line of the first
    table and none for the second. *)
Theorem Print_panics_on_table_without_error :
  let r := after (SetTableMeetError "test" "t1" (Some "boom")
                    (Init 0 [mkTableDiff "test" "t1"; mkTableDiff "test" "t2"]
                       [] "" (NewReport Sample.sampleTask))) in
  Result r = Error
  ∧ (MeetError <$> lookupTable r "test" "t1") = Some (Some "boom")
  ∧ (MeetError <$> lookupTable r "test" "t2") = Some None
  ∧ Print r = Panics "".
Proof.
  intros r. repeat split; try (by vm_compute).
  apply (Print_error_nil_MeetError r "test" "t2" (freshTable "test" "t2"));
    by vm_compute.
Qed.
End print.

(** ** [CalculateTotalSize] *)

Lemma SetTableMeetError_known schema table err r tr :
  lookupTable r schema table = Some tr →
  SetTableMeetError schema table err r
  = Returns (set_Result Error (storeTable r schema table (set_MeetError err tr))).
Proof.
  intros (tm & Hs & Ht)%lookup2_Some. unfold SetTableMeetError. by rewrite Hs, Ht.
Qed.

Section total_size.
Context `{MapOrder, Collaborators}.
Variable db : string → string → Z * error.

Lemma CalculateTotalSize_tables r :
  CalculateTotalSize db r
  = foldl (size_step db) (Returns (r, [])) (tables (TableResults r)).
Proof.
  unfold CalculateTotalSize.
  exact (foldl_tables
    (λ acc schema table (_ : TableResult),
       and_then acc (λ '(r, warned),
         let '(size, err) := db schema table in
         match (match err with
                | Some _ => SetTableMeetError schema table err r
                | None => Returns r
                end) with
         | Panics r => Panics (r, warned)
         | Returns r =>
           if size =? 0
           then Returns (r, warned ++ [TableName schema table])
           else Returns (set_TotalSize (wrap64 (TotalSize r + size)) r, warned)
         end)) _ _).
Qed.

(** The effect of one step on a table that is present. *)
Lemma size_step_known r warned x tr :
  lookupTable r x.1.1 x.1.2 = Some tr →
  ∃ r',
    size_step db (Returns (r, warned)) x
    = Returns (r', if fetched_size db x =? 0
                   then warned ++ [TableName x.1.1 x.1.2] else warned)
    ∧ (∀ s t, lookupTable r' s t
              = if decide (table_key x = (s, t))
                then Some (recordSizeError db s t tr) else lookupTable r s t)
    ∧ Result r' = (if decide (fetch_failed db x) then Error else Result r)
    ∧ TotalSize r' = add_sizes db (TotalSize r) [x]
    ∧ (PassNum r', FailedNum r', StartTime r', Duration r', SourceConfig r',
       TargetConfig r', task r')
      = (PassNum r, FailedNum r, StartTime r, Duration r, SourceConfig r,
         TargetConfig r, task r).
Proof.
  intros Hl. destruct x as [[schema table] tr0]. simpl in Hl.
  unfold size_step, fetched_size, fetch_failed, recordSizeError, add_sizes,
    table_key, fetched_size.
  cbn [and_then fst snd foldl].
  destruct (db schema table) as [size [e|]] eqn:Hdb; cbn [fst snd].
  - rewrite (SetTableMeetError_known _ _ _ _ _ Hl).
    exists (if size =? 0
            then set_Result Error (storeTable r schema table (set_MeetError (Some e) tr))
            else set_TotalSize (wrap64 (TotalSize r + size))
                   (set_Result Error
                      (storeTable r schema table (set_MeetError (Some e) tr)))).
    rewrite decide_True by (by eexists).
    destruct (size =? 0); (split; [done|]); (split; [|done]); intros s t;
      unfold lookupTable;
      cbn [TableResults set_Result set_TotalSize storeTable set_TableResults];
      rewrite lookup2_store2;
      (destruct (decide ((schema, table) = (s, t))) as [[= -> ->]|Hne];
       [rewrite decide_True by done; by rewrite Hdb
       |rewrite decide_False; [done|]; intros [-> ->]; done]).
  - exists (if size =? 0 then r
            else set_TotalSize (wrap64 (TotalSize r + size)) r).
    rewrite decide_False by (by intros [? ?]).
    destruct (size =? 0); (split; [done|]); (split; [|done]); intros s t;
      unfold lookupTable; cbn [TableResults set_TotalSize];
      (destruct (decide ((schema, table) = (s, t))) as [[= -> ->]|Hne]; [|done]);
      by rewrite Hdb.
Qed.
Lemma size_fold (l : list (string * string * TableResult)) r warned :
  NoDup (table_key <$> l) →
  (∀ x, x ∈ l → is_Some (lookupTable r x.1.1 x.1.2)) →
  ∃ r',
    foldl (size_step db) (Returns (r, warned)) l
    = Returns (r', warned ++ ((λ x, TableName x.1.1 x.1.2)
                              <$> filter (λ x, fetched_size db x = 0) l))
    ∧ (∀ s t, lookupTable r' s t
              = if decide ((s, t) ∈ table_key <$> l)
                then recordSizeError db s t <$> lookupTable r s t
                else lookupTable r s t)
    ∧ Result r' = (if decide (Exists (fetch_failed db) l) then Error else Result r)
    ∧ TotalSize r' = add_sizes db (TotalSize r) l
    ∧ (PassNum r', FailedNum r', StartTime r', Duration r', SourceConfig r',
       TargetConfig r', task r')
      = (PassNum r, FailedNum r, StartTime r, Duration r, SourceConfig r,
         TargetConfig r, task r).
Proof.
  revert r warned. induction l as [|x l IH]; intros r warned Hnd Hin.
  - exists r. cbn [foldl fmap list_fmap filter list_filter].
    rewrite app_nil_r. split; [done|]. split.
    { intros s t. rewrite decide_False; [done|]. apply not_elem_of_nil. }
    split; [|done]. rewrite decide_False; [done|]. by intros ?%Exists_nil.
  - rewrite fmap_cons in Hnd. apply NoDup_cons in Hnd as [Hx Hnd].
    destruct (Hin x) as [tr Htr]; [apply elem_of_cons; by left|].
    destruct (size_step_known r warned x tr Htr) as (r1 & Hstep & Hl1 & HR1 & HT1 & Ho1).
    destruct (IH r1 (if fetched_size db x =? 0
                     then warned ++ [TableName x.1.1 x.1.2] else warned) Hnd)
      as (r' & Hfold & Hl' & HR' & HT' & Ho').
    { intros y Hy. rewrite Hl1. destruct (decide (table_key x = (y.1.1, y.1.2))).
      - by eexists.
      - apply Hin. apply elem_of_cons. by right. }
    exists r'. cbn [foldl]. rewrite Hstep, Hfold. split; [|split; [|split; [|split]]].
    + f_equal. f_equal. rewrite filter_cons.
      destruct (Z.eqb_spec (fetched_size db x) 0) as [Hz|Hz].
      * rewrite decide_True by done. by rewrite <- app_assoc.
      * by rewrite decide_False.
    + intros s t. rewrite Hl', Hl1, fmap_cons.
      destruct (decide (table_key x = (s, t))) as [Hk|Hk].
      * rewrite <- Hk in *.
        rewrite (decide_False (P := table_key x ∈ table_key <$> l)) by done.
        rewrite decide_True by (apply elem_of_cons; by left).
        destruct x as [[s' t'] tr']. unfold table_key in Hk. simpl in Hk, Htr.
        injection Hk as -> ->. by rewrite Htr.
      * destruct (decide ((s, t) ∈ table_key <$> l)) as [Hl|Hl].
        -- rewrite decide_True; [done|]. apply elem_of_cons. by right.
        -- rewrite decide_False; [done|].
           intros [?|?]%elem_of_cons; [by apply Hk|by apply Hl].
    + rewrite HR', HR1.
      destruct (decide (Exists (fetch_failed db) l)) as [He|He].
      * rewrite decide_True; [done|]. by apply Exists_cons_tl.
      * destruct (decide (fetch_failed db x)) as [Hf|Hf].
        -- rewrite decide_True; [done|]. by apply Exists_cons_hd.
        -- rewrite decide_False; [done|]. by intros [?|?]%Exists_cons.
    + by rewrite HT', HT1.
    + by rewrite Ho', Ho1.
Qed.

(** [CalculateTotalSize] in closed form. *)
Lemma CalculateTotalSize_spec r :
  ∃ r',
    CalculateTotalSize db r
    = Returns (r', (λ x, TableName x.1.1 x.1.2)
                   <$> filter (λ x, fetched_size db x = 0) (tables (TableResults r)))
    ∧ (∀ s t, lookupTable r' s t = recordSizeError db s t <$> lookupTable r s t)
    ∧ Result r' = (if decide (Exists (fetch_failed db) (tables (TableResults r)))
                   then Error else Result r)
    ∧ TotalSize r' = add_sizes db (TotalSize r) (tables (TableResults r))
    ∧ (PassNum r', FailedNum r', StartTime r', Duration r', SourceConfig r',
       TargetConfig r', task r')
      = (PassNum r, FailedNum r, StartTime r, Duration r, SourceConfig r,
         TargetConfig r, task r).
Proof.
  rewrite CalculateTotalSize_tables.
  destruct (size_fold (tables (TableResults r)) r []) as (r' & Hf & Hl & Hrest).
  { apply NoDup_table_keys. }
  { intros [[s t] tr] Hx. apply elem_of_tables in Hx. by eexists. }
  exists r'. split; [done|]. split; [|done].
  intros s t. rewrite Hl.
  destruct (decide ((s, t) ∈ table_key <$> tables (TableResults r)))
    as [Hin|Hin]; [done|].
  rewrite elem_of_table_keys in Hin. apply eq_None_not_Some in Hin.
  unfold lookupTable. by rewrite Hin.
Qed.
End total_size.

Lemma recordSizeError_fields db schema table tr :
  let tr' := recordSizeError db schema table tr in
  Schema tr' = Schema tr ∧ Table tr' = Table tr
  ∧ StructEqual tr' = StructEqual tr ∧ DataSkip tr' = DataSkip tr
  ∧ DataEqual tr' = DataEqual tr ∧ ChunkMap tr' = ChunkMap tr
  ∧ MeetError tr' = match (db schema table).2 with
                    | Some e => Some e
                    | None => MeetError tr
                    end.
Proof. unfold recordSizeError. by destruct (db schema table).2. Qed.

(** C6, as the code has it. [CalculateTotalSize] never panics.  A table whose
    size cannot be fetched is handed to [SetTableMeetError]: its [MeetError]
    becomes the fetch error and the overall [Result] becomes ["error"].  The
    equality flags, [DataSkip] and the chunk results of every table are
    unchanged, as is the [MeetError] of the tables whose size was fetched;
    when no fetch fails the overall [Result] is unchanged.  A table whose
    size is reported as zero adds nothing to [TotalSize] and is named in a
    warning. *)
Theorem CalculateTotalSize_records_fetch_errors `{MapOrder, Collaborators}
    (db : string → string → Z * error) (r : Report) :
  ∃ r' warned,
    CalculateTotalSize db r = Returns (r', warned)
    ∧ (∀ schema table tr, lookupTable r schema table = Some tr →
         ∃ tr', lookupTable r' schema table = Some tr'
                ∧ StructEqual tr' = StructEqual tr
                ∧ DataSkip tr' = DataSkip tr
                ∧ DataEqual tr' = DataEqual tr
                ∧ ChunkMap tr' = ChunkMap tr
                ∧ MeetError tr' = match (db schema table).2 with
                                  | Some e => Some e
                                  | None => MeetError tr
                                  end)
    ∧ (∀ schema table, lookupTable r schema table = None →
         lookupTable r' schema table = None)
    ∧ ((∃ schema table, is_Some (lookupTable r schema table)
                        ∧ is_Some (db schema table).2) →
       Result r' = Error)
    ∧ ((∀ schema table, is_Some (lookupTable r schema table) →
          (db schema table).2 = None) →
       Result r' = Result r)
    ∧ (∀ name, name ∈ warned ↔
         ∃ schema table, is_Some (lookupTable r schema table)
                         ∧ (db schema table).1 = 0
                         ∧ name = TableName schema table)
    ∧ TotalSize r' = add_sizes db (TotalSize r) (tables (TableResults r))
    ∧ ((∀ schema table, is_Some (lookupTable r schema table) →
          (db schema table).1 = 0) →
       TotalSize r' = TotalSize r).
Proof.
  destruct (CalculateTotalSize_spec db r) as (r' & Hc & Hl & HR & HT & _).
  exists r'. eexists. split; [exact Hc|].
  split; [|split; [|split; [|split; [|split; [|split]]]]].
  - intros schema table tr Htr. rewrite Hl, Htr. simpl. eexists. split; [done|].
    destruct (recordSizeError_fields db schema table tr) as (_ & _ & ? & ? & ? & ? & ?).
    done.
  - intros schema table Htr. by rewrite Hl, Htr.
  - intros (schema & table & [tr Htr] & Herr). rewrite HR.
    rewrite decide_True; [done|]. apply Exists_exists.
    exists (schema, table, tr). split; [|done]. by apply elem_of_tables.
  - intros Hok. rewrite HR. rewrite decide_False; [done|].
    intros ([[s t] tr] & Hin & [e He])%Exists_exists. apply elem_of_tables in Hin.
    simpl in He. rewrite Hok in He; [done|]. by eexists.
  - intros name. rewrite list_elem_of_fmap. split.
    + intros ([[s t] tr] & -> & [Hz Hin]%list_elem_of_filter).
      apply elem_of_tables in Hin. exists s, t. split; [by eexists|done].
    + intros (s & t & [tr Htr] & Hz & ->). exists (s, t, tr). split; [done|].
      apply list_elem_of_filter. split; [done|]. by apply elem_of_tables.
  - done.
  - intros Hz. rewrite HT. unfold add_sizes.
    assert (Forall (λ x, fetched_size db x = 0) (tables (TableResults r))) as Hall.
    { apply Forall_forall. intros [[s t] tr] Hin. apply elem_of_tables in Hin.
      apply Hz. by eexists. }
    clear Hc Hl HR HT Hz. generalize (TotalSize r).
    induction Hall as [|x l Hx _ IH]; intros z; [done|].
    simpl. rewrite Hx. simpl. apply IH.
Qed.

Section sample_total_size.
#[local] Existing Instance Sample.collaborators.
#[local] Existing Instance Sample.order.

(** A size fetch that fails on an initialized report: the overall [Result]
    becomes ["error"] and the table's [MeetError] is set, against the
    statement that the calculation is read-only. *)
Lemma total_size_is_not_read_only :
  ¬ total_size_is_read_only (λ _ _, (0, Some "connection lost"))
      (Init 0 [mkTableDiff "test" "t1"] [] "" (NewReport Sample.sampleTask)).
Proof. intros [HR _]. vm_compute in HR. discriminate HR. Qed.
End sample_total_size.

(** ** [CommitSummary] *)

Lemma sumZ_Permutation l1 l2 : l1 ≡ₚ l2 → sumZ l1 = sumZ l2.
Proof.
  induction 1 as [|x l1 l2 _ IH|x y l|l1 l2 l3 _ IH1 _ IH2]; simpl; lia.
Qed.

Lemma failing_iff tr : failing tr ↔ StructEqual tr && DataEqual tr = false.
Proof.
  unfold failing. destruct (StructEqual tr), (DataEqual tr); simpl;
    split; try done; try (by left); try (by right); by intros [?|?].
Qed.

Section summary.
Context `{MapOrder, Collaborators}.

Lemma sumChunks_fold (l : list (string * ChunkResult)) a d :
  foldl (λ '(rowAdd, rowDelete) '(_, chunkResult),
           (wrap64 (rowAdd + RowsAdd chunkResult),
            wrap64 (rowDelete + RowsDelete chunkResult)))
        (wrap64 a, wrap64 d) l
  = (wrap64 (a + sumZ (RowsAdd <$> l.*2)), wrap64 (d + sumZ (RowsDelete <$> l.*2))).
Proof.
  revert a d. induction l as [|[k c] l IH]; intros a d.
  - simpl. by rewrite !Z.add_0_r.
  - cbn [foldl]. rewrite !wrap64_add_l, IH. simpl. by rewrite !Z.add_assoc.
Qed.

Lemma sumChunks_total chunkMap :
  sumChunks chunkMap
  = (wrap64 (totalRows RowsAdd chunkMap), wrap64 (totalRows RowsDelete chunkMap)).
Proof.
  unfold sumChunks, totalRows.
  change (0, 0) with (wrap64 0, wrap64 0). rewrite sumChunks_fold. simpl.
  by rewrite !(sumZ_Permutation _ _
    (fmap_Permutation _ _ _ (fmap_Permutation snd _ _ (range_perm _ _)))).
Qed.

Lemma getDiffRows_fold (l : list (string * string * TableResult)) rows :
  foldl (λ diffRows x,
    if StructEqual x.2 && DataEqual x.2 then diffRows
    else
      let diffRow := [] ++ [TableName x.1.1 x.1.2] in
      let diffRow :=
        if negb (StructEqual x.2) then diffRow ++ ["false"]
        else diffRow ++ ["true"] in
      let '(rowAdd, rowDelete) := sumChunks (ChunkMap x.2) in
      let diffRow := diffRow ++ [fmtDiff rowAdd rowDelete] in
      diffRows ++ [diffRow]) rows l
  = rows ++ (diff_row <$> filter (λ x, failing x.2) l).
Proof.
  revert rows. induction l as [|x l IH]; intros rows.
  - simpl. by rewrite app_nil_r.
  - cbn [foldl]. rewrite IH, filter_cons.
    destruct (StructEqual x.2 && DataEqual x.2) eqn:Hx.
    + rewrite decide_False; [done|]. rewrite failing_iff. congruence.
    + rewrite decide_True by (by apply failing_iff).
      rewrite sumChunks_total, fmap_cons, <- app_assoc. simpl.
      unfold diff_row. by destruct (StructEqual x.2).
Qed.

Lemma getDiffRows_tables r :
  getDiffRows r = diff_row <$> filter (λ x, failing x.2) (tables (TableResults r)).
Proof.
  unfold getDiffRows.
  rewrite <- (app_nil_l (diff_row <$> _)), <- getDiffRows_fold.
  exact (foldl_tables
    (λ diffRows schema table result,
      if StructEqual result && DataEqual result then diffRows
      else
        let diffRow := [] ++ [TableName schema table] in
        let diffRow :=
          if negb (StructEqual result) then diffRow ++ ["false"]
          else diffRow ++ ["true"] in
        let '(rowAdd, rowDelete) := sumChunks (ChunkMap result) in
        let diffRow := diffRow ++ [fmtDiff rowAdd rowDelete] in
        diffRows ++ [diffRow]) _ _).
Qed.

Lemma elem_of_getDiffRows r row :
  row ∈ getDiffRows r ↔
  ∃ schema table tr,
    lookupTable r schema table = Some tr ∧ failing tr
    ∧ row = diff_row (schema, table, tr).
Proof.
  rewrite getDiffRows_tables, list_elem_of_fmap. split.
  - intros ([[s t] tr] & -> & [Hf Hin]%list_elem_of_filter).
    apply elem_of_tables in Hin. by exists s, t, tr.
  - intros (s & t & tr & Hl & Hf & ->). exists (s, t, tr). split; [done|].
    apply list_elem_of_filter. split; [done|]. by apply elem_of_tables.
Qed.
End summary.

Section summary_file.
Context `{MapOrder, Collaborators}.

(** Unless the overall [Result] is ["fail"], no table is written. *)
Lemma CommitSummary_no_table now createErr r header rows :
  Result r ≠ Fail → TableView header rows ∉ (CommitSummary now createErr r).2.
Proof.
  intros Hr. unfold CommitSummary.
  destruct (foldl _ _ _) as [passNum failedNum].
  destruct createErr as [e|]; cbn [snd Result].
  { apply not_elem_of_nil. }
  rewrite (bool_decide_false _ Hr). intros Hin.
  repeat (apply elem_of_app in Hin as [Hin|Hin]);
    repeat (apply elem_of_cons in Hin as [Hin|Hin]; [discriminate Hin|]);
    try (by apply elem_of_nil in Hin).
  - apply list_elem_of_bind in Hin as (c & Hin & _).
    repeat (apply elem_of_cons in Hin as [Hin|Hin]; [discriminate Hin|]).
    by apply elem_of_nil in Hin.
  - apply list_elem_of_fmap in Hin as (t & Hin & _). discriminate Hin.
Qed.

(** C8, as the code has it. Whenever the overall [Result] is ["fail"], the
    summary file contains, right after the list of fully-equal tables, a
    table with columns [Table | Structure equality | Data diff rows] that has
    one row per table with [StructEqual] or [DataEqual] false, whose
    diff-rows cell is [+<added>/-<deleted>], [<added>] and [<deleted>] being
    the sums (as Go [int]s) of [RowsAdd] and [RowsDelete] over all chunk
    results recorded for that table. *)
Theorem CommitSummary_diff_table now (r : Report) :
  Result r = Fail →
  ∃ pre post,
    CommitSummary now None r
    = ((CommitSummary now None r).1.1, None,
       pre ++ ((λ table, Text (table +:+ newline)) <$> getSortedTables r)
       ++ [Text (newline +:+ "The following tables contains inconsistent data"
                 +:+ newline +:+ newline);
           TableView ["Table"; "Structure equality"; "Data diff rows"]
                     (getDiffRows r)]
       ++ post)
    ∧ (∀ header rows, TableView header rows ∉ pre ++ post)
    ∧ getDiffRows r
      = diff_row <$> filter (λ x, failing x.2) (tables (TableResults r))
    ∧ (∀ row, row ∈ getDiffRows r ↔
         ∃ schema table tr,
           lookupTable r schema table = Some tr
           ∧ (StructEqual tr = false ∨ DataEqual tr = false)
           ∧ row = [TableName schema table;
                    if StructEqual tr then "true" else "false";
                    "+" +:+ pretty (wrap64 (totalRows RowsAdd (ChunkMap tr)))
                    +:+ "/-"
                    +:+ pretty (wrap64 (totalRows RowsDelete (ChunkMap tr)))]).
Proof.
  intros Hr. unfold CommitSummary.
  destruct (foldl _ _ _) as [passNum failedNum].
  cbn [fst snd Result SourceConfig TargetConfig TotalSize Duration StartTime].
  rewrite (bool_decide_true _ Hr).
  exists ([Text ("Summary" +:+ newline +:+ newline +:+ newline +:+ newline);
           Text ("Source Database" +:+ newline +:+ newline +:+ newline +:+ newline)]
          ++ (SourceConfig r ≫= λ c, [Text c; Text newline])
          ++ [Text ("Target Databases" +:+ newline +:+ newline +:+ newline +:+ newline);
              Text (TargetConfig r);
              Text newline;
              Text ("Comparison Result" +:+ newline +:+ newline +:+ newline +:+ newline);
              Text ("The table structure and data in following tables are equivalent"
                    +:+ newline +:+ newline)]),
         [Text ("Time Cost: "
                +:+ fmtDuration (wrap64 (Duration r + (now - StartTime r)))
                +:+ newline);
          Text ("Average Speed: "
                +:+ fmtSpeed (TotalSize r) (wrap64 (Duration r + (now - StartTime r)))
                +:+ "MB/s" +:+ newline)].
  split; [|split; [|split]].
  - f_equal. by rewrite <- !app_assoc.
  - intros header rows Hin.
    repeat (apply elem_of_app in Hin as [Hin|Hin]);
      repeat (apply elem_of_cons in Hin as [Hin|Hin]; [discriminate Hin|]);
      try (by apply elem_of_nil in Hin).
    apply list_elem_of_bind in Hin as (c & Hin & _).
    repeat (apply elem_of_cons in Hin as [Hin|Hin]; [discriminate Hin|]).
    by apply elem_of_nil in Hin.
  - apply getDiffRows_tables.
  - intros row. apply elem_of_getDiffRows.
Qed.
End summary_file.


Section sample_summary.
#[local] Existing Instance Sample.collaborators.
#[local] Existing Instance Sample.order.

Lemma CommitSummary_diff_table_witness :
  ["`test`.`t1`"; "true"; "+2/-1"] ∈ getDiffRows sample_failed.
Proof.
  destruct (CommitSummary_diff_table 10 sample_failed)
    as (pre & post & _ & _ & _ & Hrows).
  - vm_compute. reflexivity.
  - apply Hrows.
    exists "test", "t1",
      {| Schema := "test"; Table := "t1"; StructEqual := true; DataSkip := false;
         DataEqual := false; MeetError := None;
         ChunkMap := Some {[ "0:1:3" := mkChunkResult 2 1 ]} |}.
    split; [|split].
    + vm_compute. reflexivity.
    + right. reflexivity.
    + vm_compute. reflexivity.
Defined.

(** With the overall [Result] at ["error"], table [t1] still has failures but
    the summary file has no diff table. *)
Lemma summary_omits_failures_on_error :
  ¬ summary_shows_failures 10 sample_errored.
Proof.
  intros Hc. destruct Hc as [rows Hin].
  - exists "test", "t1",
      {| Schema := "test"; Table := "t1"; StructEqual := true; DataSkip := false;
         DataEqual := false; MeetError := None;
         ChunkMap := Some {[ "0:1:3" := mkChunkResult 2 1 ]} |}.
    split; [vm_compute; reflexivity|]. by right.
  - revert Hin. apply CommitSummary_no_table. vm_compute. discriminate.
Qed.
End sample_summary.

(** ** [GetSnapshot] *)

Lemma string_leb_ltb a b : String.leb a b = negb (String.ltb b a).
Proof.
  unfold String.leb, String.ltb. rewrite String.compare_antisym.
  by destruct (String.compare b a).
Qed.

Section snapshot.
Context `{MapOrder, Collaborators}.
Variable chunkID : ChunkID.

Lemma GetSnapshot_steps now schema table r :
  GetSnapshot now chunkID schema table r
  = (reserveMap ←
       foldlM (snapshot_schema_step chunkID (UniqueID schema table))
              (range (TableResults r)) ∅;;;
     inr {| PassNum := 0; FailedNum := 0; Result := Result r;
            TableResults := reserveMap; StartTime := StartTime r;
            Duration := now - StartTime r; TotalSize := TotalSize r;
            SourceConfig := []; TargetConfig := ""; task := task r |}).
Proof. reflexivity. Qed.

(** The loop over the chunks of one table. *)
Lemma snapshot_chunks_inr (l : list (string * ChunkResult)) acc res :
  NoDup l.*1 →
  foldlM (snapshot_chunk_step chunkID) l acc = inr res →
  (∀ id c, (id, c) ∈ l → parsable id)
  ∧ ∀ id, res !! id
          = match list_to_map (M := gmap string ChunkResult) l !! id with
            | Some c => if keepChunk chunkID id then Some c else acc !! id
            | None => acc !! id
            end.
Proof.
  revert acc. induction l as [|[k c] l IH]; intros acc Hnd Hf.
  - simpl in Hf. injection Hf as <-. split.
    + intros id c Hin. by apply elem_of_nil in Hin.
    + intros id. simpl. by rewrite lookup_empty.
  - rewrite fmap_cons in Hnd. apply NoDup_cons in Hnd as [Hk Hnd].
    cbn [foldlM snapshot_chunk_step] in Hf. unfold try in Hf at 1.
    destruct (FromString k) as [e|sid] eqn:Hp; [done|]. cbn [try] in Hf.
    destruct (IH _ Hnd Hf) as [Hpars Hres]. split.
    + intros id c' [Heq|Hin]%elem_of_cons; [|by eapply Hpars].
      injection Heq as -> ->. by exists sid.
    + intros id. rewrite Hres. cbn [list_to_map foldr]. simpl.
      destruct (decide (id = k)) as [->|Hne].
      * rewrite lookup_insert_eq.
        rewrite (not_elem_of_list_to_map_1 l k Hk).
        unfold keepChunk. rewrite Hp.
        destruct (Compare sid chunkID <=? 0); [|done]. by rewrite lookup_insert_eq.
      * rewrite (lookup_insert_ne _ k id) by done.
        destruct (Compare sid chunkID <=? 0); [|done].
        by rewrite lookup_insert_ne.
Qed.

Lemma snapshot_chunks_total (l : list (string * ChunkResult)) acc :
  (∀ id c, (id, c) ∈ l → parsable id) →
  ∃ res, foldlM (snapshot_chunk_step chunkID) l acc = inr res.
Proof.
  revert acc. induction l as [|[k c] l IH]; intros acc Hp; [by eexists|].
  destruct (Hp k c) as [sid Hsid]; [apply elem_of_cons; by left|].
  cbn [foldlM snapshot_chunk_step]. rewrite Hsid. cbn [try].
  apply IH. intros id c' Hin. apply (Hp id c'). apply elem_of_cons. by right.
Qed.

Lemma snapshot_chunks_filter (chunkMap : gmap string ChunkResult) res :
  foldlM (snapshot_chunk_step chunkID) (range chunkMap) ∅ = inr res →
  (∀ id, is_Some (chunkMap !! id) → parsable id)
  ∧ res = filter (λ kv, keepChunk chunkID kv.1 = true) chunkMap.
Proof.
  intros Hf. apply snapshot_chunks_inr in Hf as [Hp Hres];
    [|apply NoDup_range_keys].
  split.
  - intros id [c Hc]. apply (Hp id c). by apply elem_of_range.
  - apply map_eq. intros id. rewrite Hres, list_to_map_range, map_lookup_filter.
    rewrite lookup_empty.
    destruct (chunkMap !! id) as [c|]; simpl; [|done].
    case_guard as Hk; simpl.
    + by rewrite Hk.
    + by destruct (keepChunk chunkID id).
Qed.
Lemma lookup2_insert_empty_any {A} (m : gmap string (gmap string A)) k s t :
  lookup2 (<[k := ∅]> m) s t = if decide (k = s) then None else lookup2 m s t.
Proof.
  unfold lookup2. destruct (decide (k = s)) as [->|Hne].
  - by rewrite lookup_insert_eq.
  - by rewrite lookup_insert_ne.
Qed.

(** One table. *)
Lemma snapshot_table_step_inr targetID schema m t tr res :
  snapshot_table_step chunkID targetID schema m (t, tr) = inr res →
  if String.leb targetID (UniqueID schema t)
  then (∀ id, is_Some (default ∅ (ChunkMap tr) !! id) → parsable id)
       ∧ res = store2 m schema t (snapshotTable chunkID tr)
  else res = m.
Proof.
  unfold snapshot_table_step.
  destruct (String.leb targetID (UniqueID schema t)); [|by intros [= <-]].
  destruct (foldlM _ _ _) as [e|chunkRes] eqn:Hc; [done|]. cbn [try].
  rewrite lookup2_store2_eq, store2_store2. intros [= <-].
  apply snapshot_chunks_filter in Hc as [Hp ->]. done.
Qed.

Lemma snapshot_table_step_total targetID schema m t tr :
  (String.leb targetID (UniqueID schema t) = true →
   ∀ id, is_Some (default ∅ (ChunkMap tr) !! id) → parsable id) →
  ∃ res, snapshot_table_step chunkID targetID schema m (t, tr) = inr res.
Proof.
  intros Hp. unfold snapshot_table_step.
  destruct (String.leb targetID (UniqueID schema t)); [|by eexists].
  destruct (snapshot_chunks_total (range (default ∅ (ChunkMap tr))) ∅)
    as [chunkRes ->].
  { intros id c Hin. apply Hp; [done|]. apply elem_of_range in Hin. by eexists. }
  by eexists.
Qed.

(** The tables of one schema. *)
Lemma snapshot_tables_inr targetID schema (l : list (string * TableResult)) m res :
  NoDup l.*1 →
  foldlM (snapshot_table_step chunkID targetID schema) l m = inr res →
  (∀ t tr, (t, tr) ∈ l → String.leb targetID (UniqueID schema t) = true →
     ∀ id, is_Some (default ∅ (ChunkMap tr) !! id) → parsable id)
  ∧ ∀ s t, lookup2 res s t
           = if decide (s = schema) then
               match list_to_map (M := gmap string TableResult) l !! t with
               | Some tr =>
                 if String.leb targetID (UniqueID schema t)
                 then Some (snapshotTable chunkID tr) else lookup2 m s t
               | None => lookup2 m s t
               end
             else lookup2 m s t.
Proof.
  revert m. induction l as [|[k tr] l IH]; intros m Hnd Hf.
  - simpl in Hf. injection Hf as <-. split.
    + intros t tr Hin. by apply elem_of_nil in Hin.
    + intros s t. simpl. rewrite lookup_empty. by destruct (decide (s = schema)).
  - rewrite fmap_cons in Hnd. apply NoDup_cons in Hnd as [Hk Hnd].
    cbn [foldlM] in Hf.
    destruct (snapshot_table_step chunkID targetID schema m (k, tr))
      as [e|m1] eqn:Hstep; [done|].
    cbn [try] in Hf. apply snapshot_table_step_inr in Hstep.
    destruct (IH _ Hnd Hf) as [Hpars Hres]. split.
    + intros t tr' [Heq|Hin]%elem_of_cons Hleb; [|by eapply Hpars].
      injection Heq as -> ->. rewrite Hleb in Hstep. by destruct Hstep.
    + intros s t. rewrite Hres.
      destruct (decide (s = schema)) as [->|Hs].
      * cbn [list_to_map foldr]. simpl.
        destruct (decide (t = k)) as [->|Ht].
        -- rewrite lookup_insert_eq, (not_elem_of_list_to_map_1 l k Hk).
           destruct (String.leb targetID (UniqueID schema k)).
           ++ destruct Hstep as [_ ->]. apply lookup2_store2_eq.
           ++ by subst m1.
        -- rewrite (lookup_insert_ne _ k t) by done.
           assert (lookup2 m1 schema t = lookup2 m schema t) as ->; [|done].
           destruct (String.leb targetID (UniqueID schema k)).
           ++ destruct Hstep as [_ ->]. apply lookup2_store2_ne. congruence.
           ++ by subst m1.
      * destruct (String.leb targetID (UniqueID schema k)).
        -- destruct Hstep as [_ ->]. apply lookup2_store2_ne. congruence.
        -- by subst m1.
Qed.

Lemma snapshot_tables_total targetID schema (l : list (string * TableResult)) m :
  (∀ t tr, (t, tr) ∈ l → String.leb targetID (UniqueID schema t) = true →
     ∀ id, is_Some (default ∅ (ChunkMap tr) !! id) → parsable id) →
  ∃ res, foldlM (snapshot_table_step chunkID targetID schema) l m = inr res.
Proof.
  revert m. induction l as [|[k tr] l IH]; intros m Hp; [by eexists|].
  cbn [foldlM].
  destruct (snapshot_table_step_total targetID schema m k tr) as [m1 ->].
  { apply Hp. apply elem_of_cons. by left. }
  cbn [try]. apply IH. intros t tr' Hin. apply Hp. apply elem_of_cons. by right.
Qed.

(** All schemas. *)
Lemma snapshot_schemas_inr targetID
    (l : list (string * gmap string TableResult)) m res :
  NoDup l.*1 →
  foldlM (snapshot_schema_step chunkID targetID) l m = inr res →
  (∀ s tm t tr, (s, tm) ∈ l → tm !! t = Some tr →
     String.leb targetID (UniqueID s t) = true →
     ∀ id, is_Some (default ∅ (ChunkMap tr) !! id) → parsable id)
  ∧ ∀ s t, lookup2 res s t
           = match list_to_map (M := gmap string (gmap string TableResult)) l !! s with
             | Some tm =>
               tm !! t ≫= λ tr,
                 if String.leb targetID (UniqueID s t)
                 then Some (snapshotTable chunkID tr) else None
             | None => lookup2 m s t
             end.
Proof.
  revert m. induction l as [|[k tm] l IH]; intros m Hnd Hf.
  - simpl in Hf. injection Hf as <-. split.
    + intros s tm t tr Hin. by apply elem_of_nil in Hin.
    + intros s t. simpl. by rewrite lookup_empty.
  - rewrite fmap_cons in Hnd. apply NoDup_cons in Hnd as [Hk Hnd].
    cbn [foldlM] in Hf.
    destruct (snapshot_schema_step chunkID targetID m (k, tm))
      as [e|m1] eqn:Hstep; [done|].
    cbn [try] in Hf. unfold snapshot_schema_step in Hstep.
    apply snapshot_tables_inr in Hstep as [Hp1 Hm1]; [|apply NoDup_range_keys].
    destruct (IH _ Hnd Hf) as [Hpars Hres]. split.
    + intros s tm' t tr [Heq|Hin]%elem_of_cons Ht Hleb; [|by eapply Hpars].
      injection Heq as -> ->. apply (Hp1 t tr); [|done]. by apply elem_of_range.
    + intros s t. rewrite Hres, Hm1. cbn [list_to_map foldr]. simpl.
      rewrite list_to_map_range, lookup2_insert_empty_any.
      destruct (decide (s = k)) as [->|Hs].
      * rewrite lookup_insert_eq, (not_elem_of_list_to_map_1 l k Hk).
        rewrite decide_True by done.
        destruct (tm !! t) as [tr|]; simpl; [|done].
        by destruct (String.leb targetID (UniqueID k t)).
      * rewrite (lookup_insert_ne _ k s) by done.
        destruct (list_to_map l !! s); [done|].
        rewrite decide_False by done. done.
Qed.

Lemma snapshot_schemas_total targetID
    (l : list (string * gmap string TableResult)) m :
  (∀ s tm t tr, (s, tm) ∈ l → tm !! t = Some tr →
     String.leb targetID (UniqueID s t) = true →
     ∀ id, is_Some (default ∅ (ChunkMap tr) !! id) → parsable id) →
  ∃ res, foldlM (snapshot_schema_step chunkID targetID) l m = inr res.
Proof.
  revert m. induction l as [|[k tm] l IH]; intros m Hp; [by eexists|].
  cbn [foldlM]. unfold snapshot_schema_step at 1.
  destruct (snapshot_tables_total targetID k (range tm) (<[k := ∅]> m)) as [m1 ->].
  { intros t tr Hin. apply (Hp k tm t tr); [apply elem_of_cons; by left|].
    by apply elem_of_range. }
  cbn [try]. apply IH. intros s tm' t tr Hin. apply (Hp s tm' t tr).
  apply elem_of_cons. by right.
Qed.

(** [GetSnapshot] in closed form. *)
Lemma GetSnapshot_inr now schema table r snap :
  GetSnapshot now chunkID schema table r = inr snap →
  (∀ s t tr, lookupTable r s t = Some tr →
     String.leb (UniqueID schema table) (UniqueID s t) = true →
     ∀ id, is_Some (default ∅ (ChunkMap tr) !! id) → parsable id)
  ∧ (∀ s t, lookupTable snap s t
            = lookupTable r s t ≫= λ tr,
                if String.leb (UniqueID schema table) (UniqueID s t)
                then Some (snapshotTable chunkID tr) else None)
  ∧ snap = {| PassNum := 0; FailedNum := 0; Result := Result r;
              TableResults := TableResults snap; StartTime := StartTime r;
              Duration := now - StartTime r; TotalSize := TotalSize r;
              SourceConfig := []; TargetConfig := ""; task := task r |}.
Proof.
  rewrite GetSnapshot_steps.
  destruct (foldlM _ _ _) as [e|reserveMap] eqn:Hf; [done|]. cbn [try].
  intros [= <-]. apply snapshot_schemas_inr in Hf as [Hp Hres];
    [|apply NoDup_range_keys].
  split; [|split; [|done]].
  - intros s t tr (tm & Hs & Ht)%lookup2_Some. apply (Hp s tm t tr); [|done].
    by apply elem_of_range.
  - intros s t. unfold lookupTable. cbn [TableResults].
    rewrite Hres, list_to_map_range. unfold lookup2.
    by destruct (TableResults r !! s).
Qed.

Lemma GetSnapshot_total now schema table r :
  (∀ s t tr, lookupTable r s t = Some tr →
     String.leb (UniqueID schema table) (UniqueID s t) = true →
     ∀ id, is_Some (default ∅ (ChunkMap tr) !! id) → parsable id) →
  ∃ snap, GetSnapshot now chunkID schema table r = inr snap.
Proof.
  intros Hp. rewrite GetSnapshot_steps.
  destruct (snapshot_schemas_total (UniqueID schema table)
              (range (TableResults r)) ∅) as [reserveMap ->].
  { intros s tm t tr Hin Ht. apply (Hp s t tr). apply lookup2_Some.
    exists tm. split; [|done]. by apply elem_of_range. }
  by eexists.
Qed.
End snapshot.

(** C1. The report returned by [GetSnapshot(c, schema, table)] contains no
    table whose unique id is strictly less than the target's, and in every
    table it contains, no chunk result whose ChunkID compares strictly greater
    than [c]; every table of the live report whose unique id is not less than
    the target's is retained (with its names, equality flags and error), and
    in it every chunk result whose ChunkID compares [<= c]. The snapshot
    contains nothing that the live report does not. *)
Theorem GetSnapshot_frontier `{MapOrder, Collaborators} now (c : ChunkID)
    schema table (r snap : Report) :
  GetSnapshot now c schema table r = inr snap →
  (∀ s t, is_Some (lookupTable snap s t) →
     ¬ string_lt (UniqueID s t) (UniqueID schema table))
  ∧ (∀ s t tr' cm' id cr,
       lookupTable snap s t = Some tr' → ChunkMap tr' = Some cm' →
       cm' !! id = Some cr →
       ∃ sid, FromString id = inr sid ∧ Compare sid c <= 0 ∧ ¬ Compare sid c > 0)
  ∧ (∀ s t tr,
       lookupTable r s t = Some tr →
       ¬ string_lt (UniqueID s t) (UniqueID schema table) →
       ∃ tr' cm',
         lookupTable snap s t = Some tr'
         ∧ Schema tr' = Schema tr ∧ Table tr' = Table tr
         ∧ StructEqual tr' = StructEqual tr ∧ DataEqual tr' = DataEqual tr
         ∧ MeetError tr' = MeetError tr
         ∧ ChunkMap tr' = Some cm'
         ∧ (∀ id cr, cm' !! id = Some cr →
              default ∅ (ChunkMap tr) !! id = Some cr)
         ∧ (∀ id cr sid,
              default ∅ (ChunkMap tr) !! id = Some cr →
              FromString id = inr sid → Compare sid c <= 0 →
              cm' !! id = Some cr))
  ∧ (∀ s t, lookupTable r s t = None → lookupTable snap s t = None)
  ∧ Result snap = Result r.
Proof.
  intros Hs. apply GetSnapshot_inr in Hs as (Hp & Hl & Hsnap).
  split; [|split; [|split; [|split]]].
  - intros s t [tr' Htr']. rewrite Hl in Htr'.
    destruct (lookupTable r s t) as [tr|]; [|done]. simpl in Htr'.
    unfold string_lt. rewrite string_leb_ltb in Htr'.
    by destruct (String.ltb (UniqueID s t) (UniqueID schema table)).
  - intros s t tr' cm' id cr Htr' Hcm Hid. rewrite Hl in Htr'.
    destruct (lookupTable r s t) as [tr|]; [|done]. simpl in Htr'.
    destruct (String.leb _ _); [|done]. injection Htr' as <-.
    simpl in Hcm. injection Hcm as <-.
    apply map_lookup_filter_Some in Hid as [_ Hk]. simpl in Hk.
    unfold keepChunk in Hk. destruct (FromString id) as [e|sid]; [done|].
    exists sid. split; [done|]. apply Z.leb_le in Hk. lia.
  - intros s t tr Htr Hlt. rewrite Hl, Htr. simpl.
    rewrite string_leb_ltb. unfold string_lt in Hlt.
    destruct (String.ltb (UniqueID s t) (UniqueID schema table)); [done|].
    simpl. eexists _, _. split; [done|]. repeat (split; [done|]). split.
    + intros id cr Hid. by apply map_lookup_filter_Some in Hid as [? _].
    + intros id cr sid Hid Hsid Hc. apply map_lookup_filter_Some.
      split; [done|]. simpl. unfold keepChunk. rewrite Hsid. by apply Z.leb_le.
  - intros s t Hn. by rewrite Hl, Hn.
  - by rewrite Hsnap.
Qed.

Section sample_snapshots.
#[local] Existing Instance Sample.collaborators.
#[local] Existing Instance Sample.order.

Lemma GetSnapshot_frontier_witness :
  GetSnapshot 10 (Sample.mkChunkID 0 1 3) "test" "t2" sample_failed
  = inr sample_snapshot
  ∧ lookupTable sample_snapshot "test" "t1" = None
  ∧ ∀ s t, is_Some (lookupTable sample_snapshot s t) →
           ¬ string_lt (UniqueID s t) (UniqueID "test" "t2").
Proof.
  assert (GetSnapshot 10 (Sample.mkChunkID 0 1 3) "test" "t2" sample_failed
          = inr sample_snapshot) as Hs by (vm_compute; reflexivity).
  split; [exact Hs|]. split; [vm_compute; reflexivity|].
  exact (proj1 (GetSnapshot_frontier (H := Sample.order)
                  (H0 := Sample.collaborators) 10 (Sample.mkChunkID 0 1 3)
                  "test" "t2" sample_failed sample_snapshot Hs)).
Defined.

(** Re-hydrating a fresh report from a snapshot whose [Result] is ["fail"]
    brings the tables back but leaves the [Result] at ["pass"]. *)
Example LoadReport_keeps_pass :
  Result sample_snapshot = Fail
  ∧ Result (LoadReport 20 sample_snapshot (NewReport Sample.sampleTask)) = Pass
  ∧ is_Some (lookupTable
               (LoadReport 20 sample_snapshot (NewReport Sample.sampleTask))
               "test" "t2").
Proof. repeat split; vm_compute; by eauto. Qed.

(** A snapshot taken at the first table keeps both tables and, in the first,
    the chunk at the cutoff. *)
Example GetSnapshot_keeps_cutoff_chunk :
  ∃ snap tr,
    GetSnapshot 10 (Sample.mkChunkID 0 1 3) "test" "t1" sample_failed = inr snap
    ∧ lookupTable snap "test" "t1" = Some tr
    ∧ ChunkMap tr = Some {[ "0:1:3" := mkChunkResult 2 1 ]}
    ∧ is_Some (lookupTable snap "test" "t2").
Proof.
  destruct (GetSnapshot (H := Sample.order) (H0 := Sample.collaborators) 10
              (Sample.mkChunkID 0 1 3) "test" "t1" sample_failed)
    as [e|snap] eqn:Hs; [by vm_compute in Hs|].
  vm_compute in Hs. injection Hs as <-.
  eexists _, _. split; [done|]. split; [vm_compute; reflexivity|].
  split; [vm_compute; reflexivity|]. vm_compute. by eexists.
Qed.

(** A chunk id that does not parse in a retained table: no snapshot. *)
Example GetSnapshot_unparsable_chunk :
  ∃ e, GetSnapshot 10 (Sample.mkChunkID 0 1 3) "test" "t1"
         (storeTable sample_failed "test" "t2"
            (set_ChunkMap (Some {[ "first" := mkChunkResult 1 0 ]})
               (freshTable "test" "t2")))
       = inl e.
Proof. eexists. vm_compute. reflexivity. Qed.
End sample_snapshots.

(** * Further properties of the report *)

(** ** The order of Go strings *)

Lemma string_leb_trans a b c :
  String.leb a b = true → String.leb b c = true → String.leb a c = true.
Proof.
  unfold String.leb. revert b c.
  induction a as [|x a IH]; intros [|y b] [|z c]; simpl; try done.
  unfold Ascii.compare.
  destruct (N.compare_spec (N_of_ascii x) (N_of_ascii y)),
           (N.compare_spec (N_of_ascii y) (N_of_ascii z)),
           (N.compare_spec (N_of_ascii x) (N_of_ascii z));
    try done; try lia; by apply IH.
Qed.

Lemma string_le_trans : Transitive string_le.
Proof. intros a b c. apply string_leb_trans. Qed.

Lemma string_le_total : Total string_le.
Proof. intros a b. apply String.leb_total. Qed.

Lemma string_le_antisymm : AntiSymm (=) string_le.
Proof. intros a b. apply String.leb_antisym. Qed.

(** ** [getSortedTables] *)

Lemma equalTables_fold `{Collaborators}
    (l : list (string * string * TableResult)) names :
  foldl (λ equalTables x,
    if StructEqual x.2 && DataEqual x.2
    then equalTables ++ [TableName x.1.1 x.1.2]
    else equalTables) names l
  = names ++ ((λ x, TableName x.1.1 x.1.2) <$> filter (λ x, ¬ failing x.2) l).
Proof.
  revert names. induction l as [|x l IH]; intros names.
  - simpl. by rewrite app_nil_r.
  - cbn [foldl]. rewrite IH, filter_cons.
    destruct (StructEqual x.2 && DataEqual x.2) eqn:Hx.
    + rewrite decide_True; [by rewrite <- app_assoc|].
      rewrite failing_iff. congruence.
    + rewrite decide_False; [done|]. intros Hn. apply Hn. by apply failing_iff.
Qed.

Lemma getSortedTables_tables `{MapOrder, Collaborators} r :
  getSortedTables r
  = merge_sort string_le
      ((λ x, TableName x.1.1 x.1.2)
       <$> filter (λ x, ¬ failing x.2) (tables (TableResults r))).
Proof.
  unfold getSortedTables. f_equal.
  rewrite <- (app_nil_l (_ <$> _)), <- equalTables_fold.
  exact (foldl_tables
    (λ equalTables schema table result,
       if StructEqual result && DataEqual result
       then equalTables ++ [TableName schema table]
       else equalTables) _ _).
Qed.

(** X1. [getSortedTables] returns the names of exactly the tables whose
    structure and data are both equal, one entry per such table, in ascending
    order of Go's string comparison; the list does not depend on the order in
    which the maps are iterated. *)
Theorem getSortedTables_sorted (O1 O2 : MapOrder) `{Collaborators} (r : Report) :
  Sorted string_le (@getSortedTables O1 _ r)
  ∧ @getSortedTables O1 _ r
    ≡ₚ (λ x, TableName x.1.1 x.1.2)
       <$> filter (λ x, ¬ failing x.2) (@tables O1 (TableResults r))
  ∧ (∀ name, name ∈ @getSortedTables O1 _ r ↔
       ∃ schema table tr,
         lookupTable r schema table = Some tr
         ∧ StructEqual tr = true ∧ DataEqual tr = true
         ∧ name = TableName schema table)
  ∧ @getSortedTables O1 _ r = @getSortedTables O2 _ r.
Proof.
  pose proof string_le_trans. pose proof string_le_total.
  pose proof string_le_antisymm.
  rewrite !getSortedTables_tables.
  split; [apply (Sorted_merge_sort _)|].
  split; [apply merge_sort_Permutation|]. split.
  - intros name. rewrite merge_sort_Permutation, list_elem_of_fmap. split.
    + intros ([[s t] tr] & -> & [Hf Hin]%list_elem_of_filter).
      apply elem_of_tables in Hin. exists s, t, tr. split; [done|].
      unfold failing in Hf. simpl in Hf.
      destruct (StructEqual tr), (DataEqual tr); try done;
        exfalso; apply Hf; by (left + right).
    + intros (s & t & tr & Hl & Hs & Hd & ->). exists (s, t, tr). split; [done|].
      apply list_elem_of_filter. split; [|by apply elem_of_tables].
      unfold failing. simpl. rewrite Hs, Hd. by intros [?|?].
  - apply (Sorted_unique string_le); [apply (Sorted_merge_sort _)..|].
    rewrite !merge_sort_Permutation.
    apply fmap_Permutation, filter_Permutation, tables_Permutation.
Qed.

(** ** Sequences of updates *)

Lemma escalates_refl a : escalates a a.
Proof. by left. Qed.

Lemma escalates_trans a b c : escalates a b → escalates b c → escalates a c.
Proof.
  unfold escalates. intros Hab Hbc.
  destruct Hab as [Hab|[[Ha Hab]|Hab]], Hbc as [Hbc|[[Hb Hbc]|Hbc]];
    subst; try done; try (by left); try (by right; left); by right; right.
Qed.

Lemma escalates_escalate r : escalates (Result r) (Result (escalate r)).
Proof.
  unfold escalates. rewrite escalate_Result. case_bool_decide; auto.
Qed.

Section updates.
Context `{Collaborators}.

Lemma SetTableStructCheckResult_known schema table equal skip r tr :
  lookupTable r schema table = Some tr →
  SetTableStructCheckResult schema table equal skip r
  = Returns ((if equal then id else escalate)
               (storeTable r schema table
                  (set_DataSkip skip (set_StructEqual equal tr)))).
Proof.
  intros Hl. unfold SetTableStructCheckResult. rewrite Hl. by destruct equal.
Qed.

Lemma SetTableStructCheckResult_nil_table schema table equal skip r :
  lookupTable r schema table = None →
  SetTableStructCheckResult schema table equal skip r = Panics r.
Proof. intros Hl. unfold SetTableStructCheckResult. by rewrite Hl. Qed.

Lemma apply_update_escalates u r :
  escalates (Result r) (Result (after (apply_update u r))).
Proof.
  destruct u as [[schema table equal skip|schema table equal a d id]
                |schema table err]; simpl.
  - destruct (lookupTable r schema table) as [tr|] eqn:Hl.
    + rewrite (SetTableStructCheckResult_known _ _ _ _ _ _ Hl).
      destruct equal; simpl; [apply escalates_refl|].
      rewrite escalate_storeTable. apply escalates_escalate.
    + rewrite SetTableStructCheckResult_nil_table by done. apply escalates_refl.
  - destruct equal; [apply escalates_refl|].
    destruct (lookupTable r schema table) as [tr|] eqn:Hl.
    + destruct (ChunkMap tr) as [cm|] eqn:Hc.
      * rewrite (SetTableDataCheckResult_unequal _ _ _ _ _ _ tr) by (by rewrite ?Hc).
        simpl. rewrite escalate_storeTable. apply escalates_escalate.
      * rewrite (SetTableDataCheckResult_nil_map _ _ _ _ _ _ tr) by done.
        apply escalates_refl.
    + rewrite SetTableDataCheckResult_nil_table by done. apply escalates_refl.
  - unfold SetTableMeetError.
    destruct (TableResults r !! schema) as [tm|]; [|apply escalates_refl].
    destruct (tm !! table); [|apply escalates_refl]. simpl. by right; right.
Qed.

Lemma run_updates_snoc us u r :
  run_updates (us ++ [u]) r = and_then (run_updates us r) (apply_update u).
Proof. unfold run_updates. by rewrite foldl_app. Qed.

(** X2. The overall [Result] only escalates. Whatever sequence of
    [SetTableStructCheckResult], [SetTableDataCheckResult] and
    [SetTableMeetError] calls is made, the [Result] afterwards is the one
    before, ["fail"] or ["error"]; from ["fail"] it is ["fail"] or ["error"]
    (never ["pass"] again) and from ["error"] it is ["error"]. *)
Theorem Result_only_escalates (us : list update) (r : Report) :
  let r' := after (run_updates us r) in
  (Result r' = Result r ∨ Result r' = Fail ∨ Result r' = Error)
  ∧ (Result r = Fail → Result r' = Fail ∨ Result r' = Error)
  ∧ (Result r = Fail → Result r' ≠ Pass)
  ∧ (Result r = Error → Result r' = Error).
Proof.
  intros r'. assert (escalates (Result r) (Result r')) as He.
  { subst r'. induction us as [|u us IH] using rev_ind; [apply escalates_refl|].
    rewrite run_updates_snoc.
    destruct (run_updates us r) as [r1|r1]; simpl in *; [|done].
    eapply escalates_trans; [exact IH|apply apply_update_escalates]. }
  unfold escalates in He. repeat split.
  - destruct He as [?|[[_ ?]|?]]; auto.
  - intros Hf. rewrite Hf in He. destruct He as [?|[[_ ?]|?]]; auto.
  - intros Hf Hp. rewrite Hf, Hp in He. by destruct He as [?|[[_ ?]|?]].
  - intros Hf. rewrite Hf in He. by destruct He as [?|[[? ?]|?]].
Qed.

Lemma apply_update_keeps_unequal u r schema table tr :
  lookupTable r schema table = Some tr → DataEqual tr = false →
  ∃ tr', lookupTable (after (apply_update u r)) schema table = Some tr'
         ∧ DataEqual tr' = false.
Proof.
  intros Hl Hd.
  destruct u as [[s t equal skip|s t equal a d id]|s t err]; simpl.
  - destruct (lookupTable r s t) as [tr0|] eqn:Hl0.
    + rewrite (SetTableStructCheckResult_known _ _ _ _ _ _ Hl0).
      assert (∃ tr', lookupTable (storeTable r s t
                (set_DataSkip skip (set_StructEqual equal tr0))) schema table
              = Some tr' ∧ DataEqual tr' = false) as (tr' & Hl' & Hd').
      { rewrite lookupTable_storeTable.
        destruct (decide (s = schema ∧ t = table)) as [[-> ->]|Hne]; [|by eauto].
        eexists. split; [done|]. simpl. by simplify_eq. }
      exists tr'. split; [|done]. destruct equal; simpl; [done|].
      by rewrite lookupTable_escalate.
    + rewrite SetTableStructCheckResult_nil_table by done. eauto.
  - destruct equal; [by eauto|].
    destruct (lookupTable r s t) as [tr0|] eqn:Hl0.
    + destruct (ChunkMap tr0) as [cm|] eqn:Hc.
      * rewrite (SetTableDataCheckResult_unequal _ _ _ _ _ _ tr0) by (by rewrite ?Hc).
        simpl. rewrite lookupTable_escalate, lookupTable_storeTable.
        destruct (decide (s = schema ∧ t = table)) as [[-> ->]|Hne]; by eauto.
      * rewrite (SetTableDataCheckResult_nil_map _ _ _ _ _ _ tr0) by done.
        simpl. rewrite lookupTable_storeTable.
        destruct (decide (s = schema ∧ t = table)) as [[-> ->]|Hne]; by eauto.
    + rewrite SetTableDataCheckResult_nil_table by done. eauto.
  - destruct (TableResults r !! s) as [tm|] eqn:Hs.
    + destruct (tm !! t) as [tr0|] eqn:Ht.
      * rewrite (SetTableMeetError_known _ _ _ _ tr0)
          by (apply lookup2_Some; eauto).
        simpl. change (lookupTable (set_Result ?v ?r0) schema table)
          with (lookupTable r0 schema table).
        rewrite lookupTable_storeTable.
        destruct (decide (s = schema ∧ t = table)) as [[-> ->]|Hne]; [|by eauto].
        eexists. split; [done|]. simpl.
        assert (tr0 = tr) as ->; [|done].
        apply lookup2_Some in Hl as (tm' & ? & ?). by simplify_eq.
      * rewrite (SetTableMeetError_nil_table _ _ _ _ tm) by done. eauto.
    + destruct (SetTableMeetError_new_schema s t err r Hs) as (r' & Hr & _).
      unfold SetTableMeetError in *. rewrite Hs in *. simpl.
      exists tr. split; [|done]. unfold lookupTable, lookup2. simpl.
      apply lookup2_Some in Hl as (tm' & Hs' & Ht').
      rewrite lookup_insert_ne by congruence. by rewrite Hs'.
Qed.

(** X3. A table whose [DataEqual] is false stays in the report with
    [DataEqual] false, whatever sequence of [SetTableStructCheckResult],
    [SetTableDataCheckResult] and [SetTableMeetError] calls follows: no setter
    removes a table or sets [DataEqual] back to true. *)
Theorem DataEqual_never_recovers (us : list update) (r : Report)
    schema table tr :
  lookupTable r schema table = Some tr → DataEqual tr = false →
  ∃ tr', lookupTable (after (run_updates us r)) schema table = Some tr'
         ∧ DataEqual tr' = false.
Proof.
  intros Hl Hd. induction us as [|u us IH] using rev_ind; [by eauto|].
  rewrite run_updates_snoc. destruct IH as (tr1 & Hl1 & Hd1).
  destruct (run_updates us r) as [r1|r1]; simpl in *; [|by eauto].
  by eapply apply_update_keeps_unequal.
Qed.
End updates.

(** ** The check-result setters on one table *)

Section one_table.
Context `{Collaborators}.

Lemma returned_false_Panics {A} (o : outcome A) :
  returned o = false ↔ ∃ a, o = Panics a.
Proof. destruct o; simpl; split; try done; eauto. by intros [? ?]. Qed.

Lemma SetTableStructCheckResult_known_effect schema table equal skip
    (r : Report) tr :
  lookupTable r schema table = Some tr →
  ∃ r', SetTableStructCheckResult schema table equal skip r = Returns r'
        ∧ lookupTable r' schema table
          = Some {| Schema := Schema tr; Table := Table tr;
                    StructEqual := equal; DataSkip := skip;
                    DataEqual := DataEqual tr; MeetError := MeetError tr;
                    ChunkMap := ChunkMap tr |}
        ∧ (∀ s t, (s, t) ≠ (schema, table) →
             lookupTable r' s t = lookupTable r s t)
        ∧ Result r' = (if equal then Result r
                       else if bool_decide (Result r = Error) then Error
                            else Fail)
        ∧ (PassNum r', FailedNum r', StartTime r', Duration r',
           TotalSize r', SourceConfig r', TargetConfig r', task r')
          = (PassNum r, FailedNum r, StartTime r, Duration r,
             TotalSize r, SourceConfig r, TargetConfig r, task r).
Proof.
  intros Hl. rewrite (SetTableStructCheckResult_known _ _ _ _ _ _ Hl).
  eexists. split; [done|].
  assert (∀ s t, lookupTable ((if equal then id else escalate)
              (storeTable r schema table
                 (set_DataSkip skip (set_StructEqual equal tr)))) s t
          = lookupTable (storeTable r schema table
                 (set_DataSkip skip (set_StructEqual equal tr))) s t) as Hlk.
  { intros s t. destruct equal; [done|]. apply lookupTable_escalate. }
  split; [|split; [|split]].
  - rewrite Hlk. apply lookup2_store2_eq.
  - intros s t Hne. rewrite Hlk. apply lookup2_store2_ne. congruence.
  - destruct equal; [done|]. by rewrite escalate_Result.
  - destruct equal; [done|]. unfold escalate. simpl.
    by case_bool_decide.
Qed.

(** X4. [SetTableStructCheckResult] panics exactly when [(schema, table)] has
    no entry, leaving the report as it was. Otherwise it sets [StructEqual]
    and [DataSkip] of that table and nothing else in any table; the overall
    [Result] is unchanged when [equal] is true or it was ["error"], and
    becomes ["fail"] otherwise. *)
Theorem SetTableStructCheckResult_effect schema table equal skip (r : Report) :
  (returned (SetTableStructCheckResult schema table equal skip r) = false
   ↔ lookupTable r schema table = None)
  ∧ (lookupTable r schema table = None →
     SetTableStructCheckResult schema table equal skip r = Panics r)
  ∧ (∀ tr, lookupTable r schema table = Some tr →
       ∃ r', SetTableStructCheckResult schema table equal skip r = Returns r'
             ∧ lookupTable r' schema table
               = Some {| Schema := Schema tr; Table := Table tr;
                         StructEqual := equal; DataSkip := skip;
                         DataEqual := DataEqual tr; MeetError := MeetError tr;
                         ChunkMap := ChunkMap tr |}
             ∧ (∀ s t, (s, t) ≠ (schema, table) →
                  lookupTable r' s t = lookupTable r s t)
             ∧ Result r' = (if equal then Result r
                            else if bool_decide (Result r = Error) then Error
                                 else Fail)
             ∧ (PassNum r', FailedNum r', StartTime r', Duration r',
                TotalSize r', SourceConfig r', TargetConfig r', task r')
               = (PassNum r, FailedNum r, StartTime r, Duration r,
                  TotalSize r, SourceConfig r, TargetConfig r, task r)).
Proof.
  split; [|split].
  - destruct (lookupTable r schema table) as [tr|] eqn:Hl.
    + by rewrite (SetTableStructCheckResult_known _ _ _ _ _ _ Hl).
    + by rewrite SetTableStructCheckResult_nil_table.
  - apply SetTableStructCheckResult_nil_table.
  - apply SetTableStructCheckResult_known_effect.
Qed.

(** X5. The structure flag is the last writer's, the overall result is not:
    two structure results for the same table leave [StructEqual] and
    [DataSkip] as the second call gave them, while the overall [Result]
    escalates when either call reported inequality. After "unequal" then
    "equal" the table has [StructEqual] true although the overall [Result]
    stays ["fail"]. *)
Theorem StructEqual_last_writer_wins schema table eq1 skip1 eq2 skip2
    (r : Report) tr :
  lookupTable r schema table = Some tr →
  ∃ r' tr',
    and_then (SetTableStructCheckResult schema table eq1 skip1 r)
             (SetTableStructCheckResult schema table eq2 skip2)
    = Returns r'
    ∧ lookupTable r' schema table = Some tr'
    ∧ StructEqual tr' = eq2 ∧ DataSkip tr' = skip2
    ∧ DataEqual tr' = DataEqual tr ∧ MeetError tr' = MeetError tr
    ∧ ChunkMap tr' = ChunkMap tr
    ∧ Result r' = (if eq1 && eq2 then Result r
                   else if bool_decide (Result r = Error) then Error else Fail)
    ∧ (eq1 = false → eq2 = true → Result r = Pass →
       StructEqual tr' = true ∧ Result r' = Fail).
Proof.
  intros Hl.
  destruct (SetTableStructCheckResult_known_effect schema table eq1 skip1 r
              tr Hl) as (r1 & -> & Hl1 & _ & HR1 & _). simpl.
  destruct (SetTableStructCheckResult_known_effect schema table eq2 skip2 r1
              _ Hl1) as (r2 & -> & Hl2 & _ & HR2 & _).
  eexists _, _. split; [done|]. split; [exact Hl2|]. simpl.
  repeat (split; [done|]).
  assert (Result r2 = (if eq1 && eq2 then Result r
                       else if bool_decide (Result r = Error) then Error else Fail))
    as HR.
  { rewrite HR2, HR1. destruct eq1, eq2; simpl; try done;
      by repeat case_bool_decide. }
  split; [done|]. intros -> -> Hp. split; [done|]. rewrite HR. simpl.
  rewrite Hp. done.
Qed.

(** X6. [SetTableDataCheckResult] with [equal = true] changes nothing and
    never panics, whatever the table. With [equal = false] it returns exactly
    when the table has an entry with an allocated [ChunkMap]; it panics on a
    missing table with the report untouched, and on a nil [ChunkMap] after
    [DataEqual] was already set to false. A table that [SetTableMeetError]
    created for a new schema has a nil [ChunkMap], so an unequal chunk
    reported for it afterwards panics. *)
Theorem SetTableDataCheckResult_edge_cases schema table rowsAdd rowsDelete
    (id : ChunkID) (r : Report) :
  SetTableDataCheckResult schema table true rowsAdd rowsDelete id r = Returns r
  ∧ (returned (SetTableDataCheckResult schema table false rowsAdd rowsDelete id r)
     = true ↔ tracked r schema table)
  ∧ (lookupTable r schema table = None →
     SetTableDataCheckResult schema table false rowsAdd rowsDelete id r
     = Panics r)
  ∧ (∀ tr, lookupTable r schema table = Some tr → ChunkMap tr = None →
       ∃ r', SetTableDataCheckResult schema table false rowsAdd rowsDelete id r
             = Panics r'
             ∧ (DataEqual <$> lookupTable r' schema table) = Some false
             ∧ Result r' = Result r)
  ∧ (∀ err, TableResults r !! schema = None →
       ∃ r1, SetTableMeetError schema table err r = Returns r1
             ∧ returned (SetTableDataCheckResult schema table false
                           rowsAdd rowsDelete id r1) = false).
Proof.
  split; [done|]. split; [|split; [|split]].
  - unfold tracked. destruct (lookupTable r schema table) as [tr|] eqn:Hl.
    + destruct (ChunkMap tr) as [cm|] eqn:Hc; simpl; rewrite Hc.
      * rewrite (SetTableDataCheckResult_unequal _ _ _ _ _ _ tr) by (by rewrite ?Hc).
        simpl. split; [by eexists|done].
      * rewrite (SetTableDataCheckResult_nil_map _ _ _ _ _ _ tr) by done.
        simpl. split; [done|by intros [? ?]].
    + rewrite SetTableDataCheckResult_nil_table by done. simpl.
      split; [done|by intros [? ?]].
  - apply SetTableDataCheckResult_nil_table.
  - intros tr Hl Hc. rewrite (SetTableDataCheckResult_nil_map _ _ _ _ _ _ tr) by done.
    eexists. split; [done|]. split; [|done].
    by rewrite lookupTable_storeTable, decide_True.
  - intros err Hs.
    destruct (SetTableMeetError_new_schema schema table err r Hs)
      as (r1 & Hr1 & Hl1 & _).
    exists r1. split; [done|].
    by rewrite (SetTableDataCheckResult_nil_map _ _ _ _ _ _ _ Hl1).
Qed.
End one_table.

(** ** Totals of the chunk results *)

Section totals.
Context `{Collaborators}.

Lemma bumpChunks_fold_lookup (l : list ChunkOutcome)
    (cm : gmap string ChunkResult) key :
  foldl (λ cm o, bumpChunks (outcome_key o) (co_rowsAdd o) (co_rowsDelete o) cm)
        cm l !! key
  = let hits := filter (λ o, outcome_key o = key) l in
    let c := default (mkChunkResult 0 0) (cm !! key) in
    if decide (hits = []) then cm !! key
    else Some (mkChunkResult (wrap64 (RowsAdd c + sumZ (co_rowsAdd <$> hits)))
                             (wrap64 (RowsDelete c + sumZ (co_rowsDelete <$> hits)))).
Proof.
  revert cm. induction l as [|o l IH]; intros cm; [done|].
  cbn [foldl]. rewrite IH. cbn zeta. rewrite filter_cons.
  destruct (decide (outcome_key o = key)) as [Hk|Hk].
  - rewrite (decide_False (P := o :: _ = [])) by done.
    unfold bumpChunks at 1 2 3. rewrite Hk, !lookup_insert_eq. simpl.
    destruct (decide (filter (λ o0, outcome_key o0 = key) l = [])) as [->|Hne].
    + simpl. by rewrite !Z.add_0_r.
    + by rewrite !wrap64_add_l, !Z.add_assoc.
  - unfold bumpChunks at 1 2 3. by rewrite !lookup_insert_ne.
Qed.

Lemma bumpTable_fold (l : list ChunkOutcome) tr :
  ChunkMap (foldl (λ tr o, bumpTable (outcome_key o) (co_rowsAdd o)
                                     (co_rowsDelete o) tr) tr l)
  = (λ cm, foldl (λ cm o, bumpChunks (outcome_key o) (co_rowsAdd o)
                                      (co_rowsDelete o) cm) cm l) <$> ChunkMap tr
  ∧ DataEqual (foldl (λ tr o, bumpTable (outcome_key o) (co_rowsAdd o)
                                         (co_rowsDelete o) tr) tr l)
    = (if decide (l = []) then DataEqual tr else false)
  ∧ StructEqual (foldl (λ tr o, bumpTable (outcome_key o) (co_rowsAdd o)
                                           (co_rowsDelete o) tr) tr l)
    = StructEqual tr.
Proof.
  revert tr. induction l as [|o l IH]; intros tr.
  - simpl. by destruct (ChunkMap tr).
  - cbn [foldl]. destruct (IH (bumpTable (outcome_key o) (co_rowsAdd o)
                                 (co_rowsDelete o) tr)) as (-> & -> & ->).
    rewrite (decide_False (P := o :: l = [])) by done.
    split; [|split; [|done]].
    + simpl. by destruct (ChunkMap tr).
    + by destruct (decide (l = [])).
Qed.

Lemma report_all_table (os : list ChunkOutcome) r schema table tr :
  Forall (reportable r) os →
  lookupTable r schema table = Some tr →
  ∃ r', report_all os r = Returns r'
        ∧ lookupTable r' schema table
          = Some (foldl (λ tr o, bumpTable (outcome_key o) (co_rowsAdd o)
                                           (co_rowsDelete o) tr) tr
                        (filter (reported_unequal schema table) os))
        ∧ Result r' = (if decide (Forall (λ o, co_equal o = true) os)
                       then Result r else Result (escalate r)).
Proof.
  revert r tr. induction os as [|o os IH]; intros r tr Hos Hl.
  - exists r. split; [done|]. split; [done|]. by rewrite decide_True.
  - apply Forall_cons in Hos as [Ho Hos]. rewrite report_all_cons, filter_cons.
    destruct (co_equal o) eqn:He.
    + unfold report_outcome. rewrite He, SetTableDataCheckResult_equal.
      cbn [and_then]. destruct (IH r tr Hos Hl) as (r' & -> & Hl' & HR').
      exists r'. split; [done|]. split.
      * rewrite decide_False; [done|]. unfold reported_unequal. rewrite He.
        by intros [? _].
      * rewrite HR'. destruct (decide (Forall _ os)) as [Hf|Hf].
        -- rewrite decide_True; [done|]. by apply Forall_cons.
        -- rewrite decide_False; [done|]. by intros [_ ?]%Forall_cons.
    + destruct (tracked_inv _ _ _ (Ho He)) as (tr0 & Hl0 & Hc0).
      unfold report_outcome. rewrite He.
      rewrite (SetTableDataCheckResult_unequal _ _ _ _ _ _ _ Hl0 Hc0).
      cbn [and_then].
      set (r1 := escalate (storeTable r (co_schema o) (co_table o)
                   (bumpTable (ToString (co_id o)) (co_rowsAdd o)
                      (co_rowsDelete o) tr0))).
      assert (Forall (reportable r1) os) as Hos1.
      { eapply Forall_impl; [exact Hos|]. intros o' Ho' He'.
        by apply tracked_store, Ho'. }
      assert (Result (escalate r1) = Result (escalate r)
              ∧ Result r1 = Result (escalate r)) as [HRe HR1].
      { subst r1. by rewrite escalate_idemp, escalate_storeTable. }
      destruct (decide (reported_unequal schema table o)) as [Hu|Hu].
      * destruct Hu as (_ & Hs & Ht).
        assert (tr0 = tr) as -> by (rewrite Hs, Ht in Hl0; congruence).
        destruct (IH r1 (bumpTable (ToString (co_id o)) (co_rowsAdd o)
                           (co_rowsDelete o) tr) Hos1) as (r' & -> & Hl' & HR').
        { subst r1. rewrite lookupTable_escalate, lookupTable_storeTable.
          by rewrite decide_True. }
        exists r'. split; [done|]. split; [done|]. rewrite HR'.
        rewrite (decide_False (P := Forall _ (o :: os)))
          by (intros [? _]%Forall_cons; congruence).
        by destruct (decide (Forall _ os)).
      * destruct (IH r1 tr Hos1) as (r' & -> & Hl' & HR').
        { subst r1. rewrite lookupTable_escalate, lookupTable_storeTable.
          rewrite decide_False; [done|]. intros [Hs Ht]. by apply Hu. }
        exists r'. split; [done|]. split; [done|]. rewrite HR'.
        rewrite (decide_False (P := Forall _ (o :: os)))
          by (intros [? _]%Forall_cons; congruence).
        by destruct (decide (Forall _ os)).
Qed.

(** X7. Chunk results accumulate. After any list of chunk outcomes was
    reported to a report in which the tables of the unequal outcomes are
    registered, the [ChunkResult] stored under a chunk-id string holds the
    earlier counts plus the sums (as Go [int]s) of [rowsAdd] and [rowsDelete]
    over all unequal outcomes reported for that table and chunk id; the entry
    of a chunk without unequal outcome is untouched. [DataEqual] of the table
    is false as soon as one unequal outcome was reported for it, and the
    overall [Result] escalates as soon as any outcome is unequal. *)
Theorem chunk_totals_are_sums (os : list ChunkOutcome) (r : Report)
    schema table tr cm :
  (∀ o, o ∈ os → co_equal o = false → tracked r (co_schema o) (co_table o)) →
  lookupTable r schema table = Some tr → ChunkMap tr = Some cm →
  ∃ r' tr' cm',
    report_all os r = Returns r'
    ∧ lookupTable r' schema table = Some tr'
    ∧ ChunkMap tr' = Some cm'
    ∧ (∀ key,
         let hits := filter (λ o, outcome_key o = key)
                            (filter (reported_unequal schema table) os) in
         let c := default (mkChunkResult 0 0) (cm !! key) in
         cm' !! key
         = if decide (hits = []) then cm !! key
           else Some (mkChunkResult
                        (wrap64 (RowsAdd c + sumZ (co_rowsAdd <$> hits)))
                        (wrap64 (RowsDelete c + sumZ (co_rowsDelete <$> hits)))))
    ∧ DataEqual tr'
      = (if decide (filter (reported_unequal schema table) os = [])
         then DataEqual tr else false)
    ∧ StructEqual tr' = StructEqual tr
    ∧ Result r'
      = (if decide (Forall (λ o, co_equal o = true) os) then Result r
         else if bool_decide (Result r = Error) then Error else Fail).
Proof.
  intros Hos Hl Hc.
  destruct (report_all_table os r schema table tr) as (r' & Hr & Hl' & HR');
    [by apply Forall_forall|done|].
  destruct (bumpTable_fold (filter (reported_unequal schema table) os) tr)
    as (HC & HD & HS).
  rewrite Hc in HC. simpl in HC.
  eexists r', _, _. split; [done|]. split; [exact Hl'|]. split; [exact HC|].
  split; [|split; [done|split; [done|]]].
  - intros key. apply bumpChunks_fold_lookup.
  - rewrite HR'. by rewrite escalate_Result.
Qed.
End totals.

(** ** [Init] and the resume path *)

Lemma Init_other_fields now tableDiffs sourceConfig targetConfig r :
  let r' := Init now tableDiffs sourceConfig targetConfig r in
  (StartTime r', SourceConfig r', TargetConfig r')
  = (now, sourceConfig, targetConfig)
  ∧ (PassNum r', FailedNum r', Duration r', TotalSize r', task r')
    = (PassNum r, FailedNum r, Duration r, TotalSize r, task r).
Proof.
  unfold Init.
  match goal with |- context [foldl ?f ?a _] => set (body := f); set (r0 := a) end.
  assert (∀ tds r1,
            (StartTime (foldl body r1 tds), SourceConfig (foldl body r1 tds),
             TargetConfig (foldl body r1 tds), PassNum (foldl body r1 tds),
             FailedNum (foldl body r1 tds), Duration (foldl body r1 tds),
             TotalSize (foldl body r1 tds), task (foldl body r1 tds))
            = (StartTime r1, SourceConfig r1, TargetConfig r1, PassNum r1,
               FailedNum r1, Duration r1, TotalSize r1, task r1)) as Hfold.
  { induction tds as [|td tds IH]; intros r1; [done|].
    simpl. rewrite IH. unfold body.
    by destruct (TableResults r1 !! td_Schema td). }
  pose proof (Hfold tableDiffs r0) as Hf.
  injection Hf as -> -> -> -> -> -> -> ->. done.
Qed.

(** X8. [Init] registers an optimistic result (structure and data equal, no
    error, an empty allocated [ChunkMap]) for every table of the list,
    replacing whatever result such a table had; results of other tables and
    the overall [Result] are kept. It sets [StartTime] and the two
    configuration texts and leaves the counters, [Duration], [TotalSize] and
    the task alone. Running it again on its own result changes no table. *)
Theorem Init_registers_tables now tableDiffs sourceConfig targetConfig
    (r : Report) :
  let r' := Init now tableDiffs sourceConfig targetConfig r in
  (∀ schema table, mkTableDiff schema table ∈ tableDiffs →
     lookupTable r' schema table
     = Some {| Schema := schema; Table := table; StructEqual := true;
               DataSkip := false; DataEqual := true; MeetError := None;
               ChunkMap := Some ∅ |}
     ∧ tracked r' schema table)
  ∧ (∀ schema table, mkTableDiff schema table ∉ tableDiffs →
       lookupTable r' schema table = lookupTable r schema table)
  ∧ Result r' = Result r
  ∧ (StartTime r', SourceConfig r', TargetConfig r')
    = (now, sourceConfig, targetConfig)
  ∧ (PassNum r', FailedNum r', Duration r', TotalSize r', task r')
    = (PassNum r, FailedNum r, Duration r, TotalSize r, task r)
  ∧ (∀ now' schema table,
       lookupTable (Init now' tableDiffs sourceConfig targetConfig r')
                   schema table
       = lookupTable r' schema table).
Proof.
  intros r'. subst r'.
  destruct (Init_spec now tableDiffs sourceConfig targetConfig r) as [HR HT].
  destruct (Init_other_fields now tableDiffs sourceConfig targetConfig r)
    as [Hf1 Hf2].
  split; [|split; [|split; [done|split; [done|split; [done|]]]]].
  - intros schema table Hin. split; [|by apply Init_tracked].
    by rewrite HT, decide_True.
  - intros schema table Hin. by rewrite HT, decide_False.
  - intros now' schema table.
    destruct (Init_spec now' tableDiffs sourceConfig targetConfig
                (Init now tableDiffs sourceConfig targetConfig r)) as [_ HT'].
    rewrite HT', HT. by destruct (decide _).
Qed.

Section resume.
Context `{MapOrder}.

Lemma lookupTable_LoadReport now reportInfo r schema table :
  lookupTable (LoadReport now reportInfo r) schema table
  = match lookupTable reportInfo schema table with
    | Some loaded => Some loaded
    | None => lookupTable r schema table
    end.
Proof.
  rewrite LoadReport_closed_form. unfold lookupTable. cbn [TableResults].
  apply lookup2_mergeTables.
Qed.

(** X9. The order of [Init] and [LoadReport] matters. Loading a snapshot into
    an initialized report gives every table of the snapshot its loaded
    result and leaves the other registered tables optimistic; initializing
    after loading replaces the loaded results of all listed tables by
    optimistic ones. *)
Theorem Init_LoadReport_order now now' tableDiffs sourceConfig targetConfig
    (reportInfo r : Report) schema table :
  lookupTable (LoadReport now' reportInfo
                 (Init now tableDiffs sourceConfig targetConfig r)) schema table
  = match lookupTable reportInfo schema table with
    | Some loaded => Some loaded
    | None => if decide (mkTableDiff schema table ∈ tableDiffs)
              then Some (freshTable schema table)
              else lookupTable r schema table
    end
  ∧ lookupTable (Init now tableDiffs sourceConfig targetConfig
                   (LoadReport now' reportInfo r)) schema table
    = if decide (mkTableDiff schema table ∈ tableDiffs)
      then Some (freshTable schema table)
      else match lookupTable reportInfo schema table with
           | Some loaded => Some loaded
           | None => lookupTable r schema table
           end.
Proof.
  destruct (Init_spec now tableDiffs sourceConfig targetConfig r) as [_ HT].
  destruct (Init_spec now tableDiffs sourceConfig targetConfig
              (LoadReport now' reportInfo r)) as [_ HT'].
  by rewrite HT', !lookupTable_LoadReport, HT.
Qed.
End resume.

(** ** More on [GetSnapshot] *)

Section snapshot_more.
Context `{MapOrder, Collaborators}.

(** X10. [GetSnapshot] fails exactly when a chunk-id string of a table that
    it retains is not accepted by [ChunkID.FromString]: it returns a report
    if and only if every chunk id recorded for a table whose unique id is not
    less than the target's parses. Chunk ids of the tables it drops are never
    parsed. *)
Theorem GetSnapshot_returns_iff_parsable now (c : ChunkID) schema table
    (r : Report) :
  (∃ snap, GetSnapshot now c schema table r = inr snap)
  ↔ (∀ s t tr id,
       lookupTable r s t = Some tr →
       String.leb (UniqueID schema table) (UniqueID s t) = true →
       is_Some (default ∅ (ChunkMap tr) !! id) →
       ∃ sid, FromString id = inr sid).
Proof.
  split.
  - intros [snap Hs]. apply GetSnapshot_inr in Hs as (Hp & _).
    intros s t tr id Hl Hleb Hid. by apply (Hp s t tr).
  - intros Hp. apply GetSnapshot_total. intros s t tr Hl Hleb id Hid.
    by apply (Hp s t tr id).
Qed.

(** X11. A snapshot does not carry [DataSkip] and always allocates the chunk
    map: every table of the returned report has [DataSkip] false, also when
    the live table had it true, and a non-nil [ChunkMap], also when the live
    table had none. *)
Theorem GetSnapshot_resets_DataSkip now (c : ChunkID) schema table
    (r snap : Report) :
  GetSnapshot now c schema table r = inr snap →
  ∀ s t tr', lookupTable snap s t = Some tr' →
    DataSkip tr' = false ∧ is_Some (ChunkMap tr') ∧ tracked snap s t.
Proof.
  intros Hs s t tr' Hl'. apply GetSnapshot_inr in Hs as (_ & Hl & _).
  assert (DataSkip tr' = false ∧ is_Some (ChunkMap tr')) as [Hd Hc].
  { rewrite Hl in Hl'. destruct (lookupTable r s t) as [tr|]; [|done].
    simpl in Hl'. destruct (String.leb _ _); [|done].
    injection Hl' as <-. simpl. split; [done|by eexists]. }
  split; [done|]. split; [done|]. unfold tracked. rewrite Hl'. done.
Qed.

Lemma snapshot_tables_dom (c : ChunkID) targetID schema
    (l : list (string * TableResult))
    (m res : gmap string (gmap string TableResult)) :
  foldlM (snapshot_table_step c targetID schema) l m = inr res →
  schema ∈ dom m → dom res = dom m.
Proof.
  revert m. induction l as [|[k tr] l IH]; intros m Hf Hin.
  - simpl in Hf. by injection Hf as <-.
  - cbn [foldlM] in Hf.
    destruct (snapshot_table_step c targetID schema m (k, tr))
      as [e|m1] eqn:Hstep; [done|].
    cbn [try] in Hf. apply snapshot_table_step_inr in Hstep.
    assert (dom m1 = dom m) as Hd.
    { destruct (String.leb targetID (UniqueID schema k)); [|by subst].
      destruct Hstep as [_ ->]. rewrite store2_dom.
      apply subseteq_union_1_L. by apply singleton_subseteq_l. }
    rewrite (IH m1 Hf); [done|]. by rewrite Hd.
Qed.

Lemma snapshot_schemas_dom (c : ChunkID) targetID
    (l : list (string * gmap string TableResult))
    (m res : gmap string (gmap string TableResult)) :
  foldlM (snapshot_schema_step c targetID) l m = inr res →
  dom res = dom m ∪ list_to_set l.*1.
Proof.
  revert m. induction l as [|[k tm] l IH]; intros m Hf.
  - simpl in Hf. injection Hf as <-. simpl. by rewrite (right_id_L ∅ (∪)).
  - cbn [foldlM] in Hf.
    destruct (snapshot_schema_step c targetID m (k, tm))
      as [e|m1] eqn:Hstep; [done|].
    cbn [try] in Hf. unfold snapshot_schema_step in Hstep.
    apply snapshot_tables_dom in Hstep;
      [|rewrite dom_insert_L; apply elem_of_union_l; by apply elem_of_singleton].
    rewrite (IH m1 Hf), Hstep, dom_insert_L, fmap_cons, list_to_set_cons.
    cbn [fst]. by rewrite (comm_L (∪) {[k]} (dom m)), <- (assoc_L (∪)).
Qed.

(** X12. A snapshot keeps every schema key of the live report, also the
    schemas all of whose tables it drops (they map to an empty table map).
    Hence, after such a snapshot is loaded into a new report, the schema of a
    dropped table exists without the table, and [SetTableMeetError] for that
    table panics. *)
Theorem GetSnapshot_keeps_schemas now now' (c : ChunkID) schema table
    (r snap : Report) :
  GetSnapshot now c schema table r = inr snap →
  dom (TableResults snap) = dom (TableResults r)
  ∧ (∀ s t tr err task,
       lookupTable r s t = Some tr →
       String.leb (UniqueID schema table) (UniqueID s t) = false →
       lookupTable snap s t = None
       ∧ is_Some (TableResults snap !! s)
       ∧ SetTableMeetError s t err (LoadReport now' snap (NewReport task))
         = Panics (LoadReport now' snap (NewReport task))).
Proof.
  intros Hs. pose proof Hs as Hs'. apply GetSnapshot_inr in Hs' as (_ & Hl & _).
  assert (dom (TableResults snap) = dom (TableResults r)) as Hdom.
  { rewrite GetSnapshot_steps in Hs.
    destruct (foldlM _ _ _) as [e|reserveMap] eqn:Hf; [done|]. cbn [try] in Hs.
    injection Hs as <-. cbn [TableResults].
    rewrite (snapshot_schemas_dom _ _ _ _ _ Hf), dom_empty_L, (left_id_L ∅ _).
    by rewrite <- dom_list_to_map_L, list_to_map_range. }
  split; [done|]. intros s t tr err task0 Hr Hleb.
  assert (lookupTable snap s t = None) as Hnone by (by rewrite Hl, Hr; simpl; rewrite Hleb).
  assert (is_Some (TableResults snap !! s)) as [tm Htm].
  { apply elem_of_dom. rewrite Hdom. apply elem_of_dom.
    apply lookup2_Some in Hr as (tm & -> & _). by eexists. }
  split; [done|]. split; [by eexists|].
  apply (SetTableMeetError_nil_table _ _ _ _ tm).
  - rewrite LoadReport_closed_form. cbn [TableResults NewReport]. unfold mergeTables.
    by rewrite lookup_union_with, Htm, lookup_empty.
  - unfold lookupTable, lookup2 in Hnone. by rewrite Htm in Hnone.
Qed.

End snapshot_more.

(** ** The counters of [CommitSummary] *)

Lemma wrap32_small z : - 2 ^ 31 <= z < 2 ^ 31 → wrap32 z = z.
Proof.
  intros Hz. unfold wrap32, wrap.
  change (2 ^ (32 - 1)) with (2 ^ 31). change (2 ^ 32) with (2 * 2 ^ 31).
  rewrite Z.mod_small; lia.
Qed.

Lemma wrap32_add_l a b : wrap32 (wrap32 a + b) = wrap32 (a + b).
Proof. apply wrap_add_l. Qed.

Lemma count_fold (l : list (string * string * TableResult)) p f :
  foldl (λ (acc : Z * Z) x,
           if StructEqual x.2 && DataEqual x.2
           then (wrap32 (acc.1 + 1), acc.2)
           else (acc.1, wrap32 (acc.2 + 1)))
        (wrap32 p, wrap32 f) l
  = (wrap32 (p + count_equal l), wrap32 (f + count_failing l)).
Proof.
  unfold count_equal, count_failing. revert p f.
  induction l as [|x l IH]; intros p f.
  - simpl. by rewrite !Z.add_0_r.
  - cbn [foldl]. rewrite !filter_cons. cbn [fst snd].
    destruct (StructEqual x.2 && DataEqual x.2) eqn:Hx.
    + rewrite wrap32_add_l, IH.
      rewrite decide_True by (rewrite failing_iff; congruence).
      rewrite decide_False by (rewrite failing_iff; congruence).
      cbn [length]. f_equal. f_equal. lia.
    + rewrite wrap32_add_l, IH.
      rewrite decide_False by (intros Hn; apply Hn; by apply failing_iff).
      rewrite decide_True by (by apply failing_iff).
      cbn [length]. f_equal. f_equal. lia.
Qed.

Lemma count_equal_failing (l : list (string * string * TableResult)) :
  count_equal l + count_failing l = Z.of_nat (length l).
Proof.
  unfold count_equal, count_failing. induction l as [|x l IH]; [done|].
  rewrite !filter_cons. destruct (decide (failing x.2)) as [Hf|Hf].
  - rewrite decide_False by (by intros Hn). cbn [length]. lia.
  - rewrite decide_True by done. cbn [length]. lia.
Qed.

Section counters.
Context `{MapOrder, Collaborators}.

Lemma CommitSummary_counts r :
  foldl (λ acc '(_, tableMap),
    foldl (λ '(passNum, failedNum) '(_, result),
      if StructEqual result && DataEqual result
      then (wrap32 (passNum + 1), failedNum)
      else (passNum, wrap32 (failedNum + 1))) acc (range tableMap))
    (0, 0) (range (TableResults r))
  = (wrap32 (count_equal (tables (TableResults r))),
     wrap32 (count_failing (tables (TableResults r)))).
Proof.
  pose proof (count_fold (tables (TableResults r)) 0 0) as Hc.
  rewrite !Z.add_0_l in Hc. rewrite <- Hc. change (wrap32 0) with 0.
  rewrite <- (foldl_tables
    (λ (acc : Z * Z) (_ _ : string) result,
       if StructEqual result && DataEqual result
       then (wrap32 (acc.1 + 1), acc.2)
       else (acc.1, wrap32 (acc.2 + 1)))).
  apply foldl_ext. intros acc [s tm]. apply foldl_ext. by intros [p f] [t res].
Qed.

Lemma CommitSummary_report now createErr (r : Report) :
  (CommitSummary now createErr r).1.1
  = {| Result := Result r;
       PassNum := wrap32 (count_equal (tables (TableResults r)));
       FailedNum := wrap32 (count_failing (tables (TableResults r)));
       TableResults := TableResults r; StartTime := StartTime r;
       Duration := Duration r; TotalSize := TotalSize r;
       SourceConfig := SourceConfig r; TargetConfig := TargetConfig r;
       task := task r |}
  ∧ (CommitSummary now createErr r).1.2 = createErr
  ∧ (is_Some createErr → (CommitSummary now createErr r).2 = []).
Proof.
  unfold CommitSummary. rewrite CommitSummary_counts.
  destruct createErr as [e|]; cbn [fst snd]; repeat split; done.
Qed.

(** X14. [CommitSummary] recounts the tables: [PassNum] becomes the number
    of tables whose structure and data are both equal and [FailedNum] the
    number of all others (as [int32]; exactly, and summing to the number of
    tables, below 2^31 tables), whatever the counters were. No other field of
    the report changes. When the summary file cannot be created the counters
    are still updated, the error is returned and nothing is written. *)
Theorem CommitSummary_counters now createErr (r : Report) :
  let r' := (CommitSummary now createErr r).1.1 in
  let n := Z.of_nat (length (tables (TableResults r))) in
  PassNum r' = wrap32 (count_equal (tables (TableResults r)))
  ∧ FailedNum r' = wrap32 (count_failing (tables (TableResults r)))
  ∧ count_equal (tables (TableResults r))
    + count_failing (tables (TableResults r)) = n
  ∧ (n < 2 ^ 31 →
     PassNum r' = count_equal (tables (TableResults r))
     ∧ FailedNum r' = count_failing (tables (TableResults r))
     ∧ PassNum r' + FailedNum r' = n)
  ∧ (Result r', TableResults r', StartTime r', Duration r', TotalSize r',
     SourceConfig r', TargetConfig r', task r')
    = (Result r, TableResults r, StartTime r, Duration r, TotalSize r,
       SourceConfig r, TargetConfig r, task r)
  ∧ (CommitSummary now createErr r).1.2 = createErr
  ∧ (is_Some createErr → (CommitSummary now createErr r).2 = []).
Proof.
  intros r' n. subst r'.
  destruct (CommitSummary_report now createErr r) as (-> & Herr & Hnil).
  pose proof (count_equal_failing (tables (TableResults r))) as Hsum.
  assert (0 <= count_equal (tables (TableResults r))
          ∧ 0 <= count_failing (tables (TableResults r))) as [Hp Hf]
    by (unfold count_equal, count_failing; lia).
  cbn [PassNum FailedNum].
  split; [done|]. split; [done|]. split; [done|].
  split; [|by repeat split].
  intros Hn. rewrite !wrap32_small by lia. repeat split; lia.
Qed.

(** X15. After [CommitSummary], the console summary of a report whose overall
    result is ["pass"] states the number of tables in the report (as an
    [int32]): it is built from the two counters, which [CommitSummary] sets
    and which are zero before. *)
Theorem Print_pass_counts_tables now createErr (r : Report) :
  Result r = Pass →
  Print (CommitSummary now createErr r).1.1
  = Returns ("A total of "
             +:+ pretty (wrap32 (Z.of_nat (length (tables (TableResults r)))))
             +:+ " table have been compared and all are equal." +:+ newline
             +:+ "You can view the comparision details through '"
             +:+ OutputDir (task r) +:+ "/" +:+ LogFileName +:+ "'" +:+ newline).
Proof.
  intros Hp.
  destruct (CommitSummary_report now createErr r) as (-> & _ & _).
  pose proof (count_equal_failing (tables (TableResults r))) as Hsum.
  unfold Print. cbn [Result PassNum FailedNum task].
  rewrite (bool_decide_true _ Hp). do 3 f_equal. unfold wrap32 at 1. rewrite wrap_add_l. fold wrap32.
  rewrite Z.add_comm. unfold wrap32 at 1. rewrite wrap_add_l. fold wrap32.
  by rewrite Hsum.
Qed.
End counters.

(** ** The total of [CalculateTotalSize] *)

Lemma sumZ_cons x l : sumZ (x :: l) = x + sumZ l.
Proof. reflexivity. Qed.

Lemma add_sizes_wrap db z (l : list (string * string * TableResult)) :
  wrap64 (add_sizes db z l) = wrap64 (z + sumZ (fetched_size db <$> l)).
Proof.
  unfold add_sizes. revert z. induction l as [|x l IH]; intros z.
  - simpl. by rewrite Z.add_0_r.
  - cbn [foldl]. rewrite IH, fmap_cons. cbn [sumZ foldr].
    destruct (Z.eqb_spec (fetched_size db x) 0) as [->|Hne].
    + by rewrite Z.add_0_l.
    + by rewrite wrap64_add_l, Z.add_assoc.
Qed.

Lemma add_sizes_exact db z (l : list (string * string * TableResult)) :
  0 <= z → Forall (λ x, 0 <= fetched_size db x) l →
  z + sumZ (fetched_size db <$> l) < 2 ^ 63 →
  add_sizes db z l = z + sumZ (fetched_size db <$> l).
Proof.
  unfold add_sizes. intros Hz Hl. revert z Hz.
  induction Hl as [|x l Hx Hl IH]; intros z Hz Hsum.
  - simpl. lia.
  - cbn [foldl]. rewrite fmap_cons, sumZ_cons in *.
    assert (0 <= sumZ (fetched_size db <$> l)) as Hnn.
    { clear -Hl. induction Hl as [|y l Hy _ IH]; [done|].
      rewrite fmap_cons, sumZ_cons. lia. }
    destruct (Z.eqb_spec (fetched_size db x) 0) as [Hz0|Hne].
    + rewrite IH by lia. lia.
    + rewrite wrap64_small by lia. rewrite IH by lia. lia.
Qed.

(** X16. When [TotalSize] and the fetched sizes are not negative and their
    total stays below 2^63, [CalculateTotalSize] leaves in [TotalSize] the
    earlier value plus the size fetched for every table of the report (also
    for a table whose fetch returned an error together with a size), and the
    total does not depend on the iteration order. *)
Theorem CalculateTotalSize_sums_sizes (O1 O2 : MapOrder) `{Collaborators}
    (db : string → string → Z * error) (r : Report) :
  0 <= TotalSize r →
  (∀ schema table, is_Some (lookupTable r schema table) →
     0 <= (db schema table).1) →
  TotalSize r + sumZ (fetched_size db <$> @tables O1 (TableResults r)) < 2 ^ 63 →
  TotalSize (after (@CalculateTotalSize O1 _ db r)).1
  = TotalSize r + sumZ (fetched_size db <$> @tables O1 (TableResults r))
  ∧ TotalSize (after (@CalculateTotalSize O2 _ db r)).1
    = TotalSize (after (@CalculateTotalSize O1 _ db r)).1.
Proof.
  intros Hz Hnn Hsum.
  assert (∀ O : MapOrder,
            TotalSize (after (@CalculateTotalSize O _ db r)).1
            = TotalSize r + sumZ (fetched_size db <$> @tables O1 (TableResults r)))
    as Hall.
  { intros O.
    destruct (@CalculateTotalSize_spec O _ db r) as (r' & Hc & _ & _ & HT & _).
    rewrite Hc. cbn [after fst]. rewrite HT.
    assert (sumZ (fetched_size db <$> @tables O (TableResults r))
            = sumZ (fetched_size db <$> @tables O1 (TableResults r))) as Hperm.
    { apply sumZ_Permutation, fmap_Permutation, tables_Permutation. }
    rewrite <- Hperm in *. apply add_sizes_exact; [done| |done].
    apply Forall_forall. intros [[s t] tr] Hin. apply elem_of_tables in Hin.
    apply Hnn. by eexists. }
  split; [apply Hall|]. by rewrite !Hall.
Qed.

(** ** The console summary of a failed comparison *)

Section print_fail.
Context `{MapOrder, Collaborators}.

Lemma print_fail_fold (l : list (string * string * TableResult)) summary :
  foldl (λ summary x,
    let summary :=
      if negb (StructEqual x.2) then
        if DataSkip x.2
        then summary +:+ "The structure of " +:+ TableName x.1.1 x.1.2
             +:+ " is not equal, and data-check is skipped" +:+ newline
        else summary +:+ "The structure of " +:+ TableName x.1.1 x.1.2
             +:+ " is not equal" +:+ newline
      else summary in
    if negb (DataEqual x.2)
    then summary +:+ "The data of " +:+ TableName x.1.1 x.1.2
         +:+ " is not equal" +:+ newline
    else summary) summary l
  = summary +:+ foldr (λ x rest, table_report x +:+ rest) "" l.
Proof.
  revert summary. induction l as [|x l IH]; intros summary.
  - simpl. by rewrite string_app_nil_r.
  - cbn [foldl foldr]. rewrite IH. unfold table_report.
    destruct (StructEqual x.2), (DataSkip x.2), (DataEqual x.2);
      cbn [negb]; by rewrite ?string_app_assoc.
Qed.

(** X17. With the overall result at ["fail"], [Print] never panics (it reads
    neither [MeetError] nor the chunk results) and writes, table by table,
    the structure line (noting a skipped data check) for a table whose
    structure differs and the data line for a table whose data differs,
    followed by the fixed footer; a table that is equal in both contributes
    nothing. *)
Theorem Print_fail_shape (r : Report) :
  Result r = Fail →
  Print r
  = Returns (foldr (λ x rest, table_report x +:+ rest) ""
                   (tables (TableResults r))
             +:+ newline +:+ "The rest of tables are all equal." +:+ newline
             +:+ "The patch file has been generated in " +:+ newline +:+ tab
             +:+ "'" +:+ FixDir (task r) +:+ "/'" +:+ newline
             +:+ "You can view the comparision details through '"
             +:+ OutputDir (task r) +:+ "/" +:+ LogFileName +:+ "'" +:+ newline)
  ∧ (∀ x, StructEqual x.2 = true → DataEqual x.2 = true → table_report x = "")
  ∧ (∀ x, StructEqual x.2 = false → DataSkip x.2 = true → DataEqual x.2 = true →
       table_report x
       = "The structure of " +:+ TableName x.1.1 x.1.2
         +:+ " is not equal, and data-check is skipped" +:+ newline).
Proof.
  intros Hf. split; [|split].
  - unfold Print. rewrite bool_decide_false by (rewrite Hf; done).
    rewrite (bool_decide_true _ Hf). f_equal.
    rewrite (foldl_tables
      (λ summary schema table result,
         let summary :=
           if negb (StructEqual result) then
             if DataSkip result
             then summary +:+ "The structure of " +:+ TableName schema table
                  +:+ " is not equal, and data-check is skipped" +:+ newline
             else summary +:+ "The structure of " +:+ TableName schema table
                  +:+ " is not equal" +:+ newline
           else summary in
         if negb (DataEqual result)
         then summary +:+ "The data of " +:+ TableName schema table
              +:+ " is not equal" +:+ newline
         else summary)).
    rewrite print_fail_fold. by rewrite string_app_assoc.
  - intros x Hs Hd. unfold table_report. by rewrite Hs, Hd.
  - intros x Hs Hk Hd. unfold table_report. rewrite Hs, Hk, Hd. cbn [negb].
    by rewrite string_app_nil_r.
Qed.
End print_fail.

(** ** Loading twice, and errors of a known table *)

(** X18. [LoadReport] never removes a table and loading the same snapshot a
    second time changes no table: after the first load every table of the
    snapshot has the loaded result and every other table of the live report
    is kept, and the second load finds them so. *)
Theorem LoadReport_idempotent `{MapOrder} now now' (reportInfo r : Report) :
  (∀ schema table,
     is_Some (lookupTable r schema table) →
     is_Some (lookupTable (LoadReport now reportInfo r) schema table))
  ∧ (∀ schema table,
       lookupTable (LoadReport now' reportInfo (LoadReport now reportInfo r))
                   schema table
       = lookupTable (LoadReport now reportInfo r) schema table)
  ∧ (∀ schema table,
       TableResults reportInfo = ∅ →
       lookupTable (LoadReport now reportInfo r) schema table
       = lookupTable r schema table).
Proof.
  split; [|split].
  - intros schema table Hr. rewrite lookupTable_LoadReport.
    by destruct (lookupTable reportInfo schema table).
  - intros schema table. rewrite !lookupTable_LoadReport.
    by destruct (lookupTable reportInfo schema table).
  - intros schema table He. rewrite lookupTable_LoadReport.
    unfold lookupTable at 1. unfold lookup2. by rewrite He, lookup_empty.
Qed.

(** X19. For a table that has an entry, [SetTableMeetError] returns, sets the
    overall [Result] to ["error"] and replaces the table's [MeetError] by the
    given error, also by nil; the table's names, flags and chunk results, all
    other tables and all other fields are unchanged. A second call replaces
    the error of the first. *)
Theorem SetTableMeetError_known_table_effect schema table err err'
    (r : Report) tr :
  lookupTable r schema table = Some tr →
  ∃ r',
    SetTableMeetError schema table err r = Returns r'
    ∧ lookupTable r' schema table
      = Some {| Schema := Schema tr; Table := Table tr;
                StructEqual := StructEqual tr; DataSkip := DataSkip tr;
                DataEqual := DataEqual tr; MeetError := err;
                ChunkMap := ChunkMap tr |}
    ∧ (∀ s t, (s, t) ≠ (schema, table) →
         lookupTable r' s t = lookupTable r s t)
    ∧ Result r' = Error
    ∧ (PassNum r', FailedNum r', StartTime r', Duration r', TotalSize r',
       SourceConfig r', TargetConfig r', task r')
      = (PassNum r, FailedNum r, StartTime r, Duration r, TotalSize r,
         SourceConfig r, TargetConfig r, task r)
    ∧ and_then (SetTableMeetError schema table err r)
               (SetTableMeetError schema table err')
      = SetTableMeetError schema table err' r.
Proof.
  intros Hl. rewrite (SetTableMeetError_known _ _ err _ _ Hl).
  eexists. split; [done|].
  split; [|split; [|split; [done|split; [done|]]]].
  - unfold lookupTable. cbn [TableResults set_Result storeTable set_TableResults].
    apply lookup2_store2_eq.
  - intros s t Hne. unfold lookupTable.
    cbn [TableResults set_Result storeTable set_TableResults].
    apply lookup2_store2_ne. congruence.
  - cbn [and_then].
    rewrite (SetTableMeetError_known _ _ err' _ (set_MeetError err tr)).
    + rewrite (SetTableMeetError_known _ _ err' _ _ Hl). f_equal.
      unfold set_Result, storeTable, set_TableResults. cbn.
      by rewrite store2_store2.
    + unfold lookupTable.
      cbn [TableResults set_Result storeTable set_TableResults].
      apply lookup2_store2_eq.
Qed.

(** ** Sample runs of the further properties *)

Section sample_more.
#[local] Existing Instance Sample.collaborators.
#[local] Existing Instance Sample.order.

Lemma sample_snapshot_taken :
  GetSnapshot 10 (Sample.mkChunkID 0 1 3) "test" "t2" sample_failed
  = inr sample_snapshot.
Proof. vm_compute. reflexivity. Qed.

Lemma sample_failed_t1 : lookupTable sample_failed "test" "t1" = Some sample_t1.
Proof. vm_compute. reflexivity. Qed.

Lemma DataEqual_never_recovers_witness :
  ∃ tr',
    lookupTable
      (after (run_updates
                [Check (StructCheck "test" "t1" true false);
                 MeetErr "test" "t1" None;
                 Check (DataCheck "test" "t1" true 0 0 (Sample.mkChunkID 0 2 3))]
                sample_failed)) "test" "t1" = Some tr'
    ∧ DataEqual tr' = false.
Proof.
  apply (DataEqual_never_recovers (H := Sample.collaborators) _ sample_failed
           "test" "t1" sample_t1).
  - exact sample_failed_t1.
  - reflexivity.
Defined.

Lemma StructEqual_last_writer_wins_witness :
  ∃ r' tr',
    and_then (SetTableStructCheckResult "test" "t2" false true sample_init)
             (SetTableStructCheckResult "test" "t2" true false)
    = Returns r'
    ∧ lookupTable r' "test" "t2" = Some tr'
    ∧ StructEqual tr' = true ∧ Result r' = Fail.
Proof.
  destruct (StructEqual_last_writer_wins "test" "t2" false true true false
              sample_init (freshTable "test" "t2"))
    as (r' & tr' & Hr & Hl & _ & _ & _ & _ & _ & _ & Hlast).
  - vm_compute. reflexivity.
  - exists r', tr'. split; [exact Hr|]. split; [exact Hl|].
    apply Hlast; reflexivity.
Defined.

Lemma chunk_totals_are_sums_witness :
  ∃ r' tr' cm',
    report_all sample_outcomes sample_init = Returns r'
    ∧ lookupTable r' "test" "t1" = Some tr'
    ∧ ChunkMap tr' = Some cm'
    ∧ cm' !! "0:1:3" = Some (mkChunkResult 7 1).
Proof.
  destruct (chunk_totals_are_sums (H := Sample.collaborators)
              sample_outcomes sample_init "test" "t1" (freshTable "test" "t1") ∅)
    as (r' & tr' & cm' & Hr & Hl & Hc & Hkeys & _).
  - intros o Ho _. apply (bool_decide_unpack _).
    repeat (apply elem_of_cons in Ho as [->|Ho]); try (vm_compute; exact I).
    by apply elem_of_nil in Ho.
  - vm_compute. reflexivity.
  - reflexivity.
  - exists r', tr', cm'. split; [exact Hr|]. split; [exact Hl|].
    split; [exact Hc|]. rewrite (Hkeys "0:1:3"). vm_compute. reflexivity.
Defined.

Lemma GetSnapshot_resets_DataSkip_witness :
  DataSkip (freshTable "test" "t2") = false
  ∧ is_Some (ChunkMap (freshTable "test" "t2"))
  ∧ tracked sample_snapshot "test" "t2".
Proof.
  apply (GetSnapshot_resets_DataSkip (H := Sample.order)
           (H0 := Sample.collaborators) 10 (Sample.mkChunkID 0 1 3)
           "test" "t2" sample_failed sample_snapshot sample_snapshot_taken
           "test" "t2" (freshTable "test" "t2")).
  vm_compute. reflexivity.
Defined.

Lemma GetSnapshot_keeps_schemas_witness :
  dom (TableResults sample_snapshot) = dom (TableResults sample_failed)
  ∧ lookupTable sample_snapshot "test" "t1" = None.
Proof.
  destruct (GetSnapshot_keeps_schemas (H := Sample.order)
              (H0 := Sample.collaborators) 10 20 (Sample.mkChunkID 0 1 3)
              "test" "t2" sample_failed sample_snapshot sample_snapshot_taken)
    as [Hdom Hdrop].
  split; [exact Hdom|].
  destruct (Hdrop "test" "t1" sample_t1 None Sample.sampleTask sample_failed_t1)
    as [Hnone _]; [vm_compute; reflexivity|exact Hnone].
Defined.


Lemma Print_pass_counts_tables_witness :
  Print (CommitSummary 10 None sample_init).1.1
  = Returns ("A total of 2 table have been compared and all are equal."
             +:+ newline
             +:+ "You can view the comparision details through "
             +:+ "'/tmp/output/sync_diff.log'" +:+ newline).
Proof.
  rewrite (Print_pass_counts_tables (H := Sample.order)
             (H0 := Sample.collaborators) 10 None sample_init).
  - vm_compute. reflexivity.
  - reflexivity.
Defined.

Lemma CalculateTotalSize_sums_sizes_witness :
  TotalSize (after (CalculateTotalSize sample_db sample_init)).1 = 12.
Proof.
  destruct (CalculateTotalSize_sums_sizes Sample.order Sample.reversed
              (H := Sample.collaborators) sample_db sample_init) as [Hsum _].
  - vm_compute. discriminate.
  - intros schema table _. unfold sample_db.
    destruct (String.eqb table "t1"); vm_compute; discriminate.
  - vm_compute. reflexivity.
  - rewrite Hsum. vm_compute. reflexivity.
Defined.

Lemma Print_fail_shape_witness :
  Print sample_failed
  = Returns ("The data of `test`.`t1` is not equal" +:+ newline
             +:+ newline +:+ "The rest of tables are all equal." +:+ newline
             +:+ "The patch file has been generated in " +:+ newline +:+ tab
             +:+ "'/tmp/output/fix/'" +:+ newline
             +:+ "You can view the comparision details through "
             +:+ "'/tmp/output/sync_diff.log'" +:+ newline).
Proof.
  destruct (Print_fail_shape (H := Sample.order) (H0 := Sample.collaborators)
              sample_failed) as [Hprint _].
  - vm_compute. reflexivity.
  - rewrite Hprint. vm_compute. reflexivity.
Defined.

Lemma SetTableMeetError_known_table_effect_witness :
  ∃ r', SetTableMeetError "test" "t1" (Some "boom") sample_failed = Returns r'
        ∧ (MeetError <$> lookupTable r' "test" "t1") = Some (Some "boom")
        ∧ Result r' = Error.
Proof.
  destruct (SetTableMeetError_known_table_effect "test" "t1" (Some "boom") None
              sample_failed sample_t1 sample_failed_t1)
    as (r' & Hr & Hl & _ & HR & _).
  exists r'. split; [exact Hr|]. split; [by rewrite Hl|exact HR].
Defined.
End sample_more.
